(** * camply, GoingToCamp provider and search: a shallow embedding

    The development follows two source files,
    [camply/providers/going_to_camp/going_to_camp_provider.py] and
    [camply/search/search_going_to_camp.py], together with the pydantic
    container of [camply/containers/gtc_api_responses.py].

    Python values are modelled with the fragment of the runtime the code
    relies on: exceptions as an error monad, insertion-ordered dictionaries
    as association lists, decoded JSON as a tagged union, calendar dates with
    their proleptic ordinal.  Integers are unbounded, as in Python. *)

From Stdlib Require Import ZArith String Ascii List Bool Lia Relations.
From Stdlib Require Import DecimalString.
Import ListNotations.

Local Open Scope Z_scope.

(* ===================================================================== *)
(** * The Python fragment *)
(* ===================================================================== *)

Module Py.

(** The exceptions that the modelled code raises, or lets escape. *)
Inductive exn : Type :=
| AttributeError
| IndexError
| KeyError
| TypeError
| ValueError
| UnboundLocalError
| RecursionError
| ConnectionError
| ProviderSearchError
| SystemExit (code : Z).

(** A call either returns a value or raises. *)
Inductive outcome (A : Type) : Type :=
| Returned (a : A)
| Raised (e : exn).
Arguments Returned {A} a.
Arguments Raised {A} e.

Definition bind {A B : Type} (c : outcome A) (k : A -> outcome B) : outcome B :=
  match c with
  | Returned a => k a
  | Raised e => Raised e
  end.

Definition returns {A : Type} (c : outcome A) : bool :=
  match c with Returned _ => true | Raised _ => false end.

(** ** Keys of dictionaries *)

Class Hashable (K : Type) : Type := {
  key_eqb : K -> K -> bool;
  key_eqb_spec : forall a b : K, reflect (a = b) (key_eqb a b)
}.

#[export] Instance Hashable_Z : Hashable Z :=
  {| key_eqb := Z.eqb; key_eqb_spec := Z.eqb_spec |}.

#[export] Instance Hashable_string : Hashable string :=
  {| key_eqb := String.eqb; key_eqb_spec := String.eqb_spec |}.

(** ** Dictionaries

    A [dict] keeps its items in insertion order; a key occurs once. *)
Definition dict (K V : Type) : Type := list (K * V).

Section Dict.
Context {K V : Type} `{Hashable K}.

Definition keys (d : dict K V) : list K := map fst d.

(** [d.get(k)], with [None] for a missing key left to the caller. *)
Fixpoint dict_get (d : dict K V) (k : K) : option V :=
  match d with
  | [] => None
  | (k', v) :: rest => if key_eqb k' k then Some v else dict_get rest k
  end.

(** [d[k] = v]: the value of a present key is replaced where it stands,
    a new key goes to the end. *)
Fixpoint dict_set (d : dict K V) (k : K) (v : V) : dict K V :=
  match d with
  | [] => [(k, v)]
  | (k', v') :: rest =>
      if key_eqb k' k then (k', v) :: rest else (k', v') :: dict_set rest k v
  end.

(** [d.update(other)]: every item of [other] is assigned into [d]. *)
Definition dict_update (d other : dict K V) : dict K V :=
  fold_left (fun acc kv => dict_set acc (fst kv) (snd kv)) other d.

(** [json.loads] of an object: members are assigned in textual order,
    so a repeated member name keeps its first position and its last
    value. *)
Definition dict_of_items (items : list (K * V)) : dict K V :=
  dict_update [] items.

Definition key_in (k : K) (d : dict K V) : bool :=
  match dict_get d k with Some _ => true | None => false end.
End Dict.

(** ** Sequences: [seq[i]] with Python's negative indices *)

Definition list_index {A : Type} (l : list A) (i : Z) : outcome A :=
  let n := Z.of_nat (length l) in
  let j := if i <? 0 then i + n else i in
  if (0 <=? j) && (j <? n)
  then match nth_error l (Z.to_nat j) with
       | Some x => Returned x
       | None => Raised IndexError
       end
  else Raised IndexError.

(** ** Strings (ASCII text) *)

Definition is_upper (c : ascii) : bool :=
  let n := nat_of_ascii c in (Nat.leb 65 n) && (Nat.leb n 90).

Definition is_digit (c : ascii) : bool :=
  let n := nat_of_ascii c in (Nat.leb 48 n) && (Nat.leb n 57).

(** [str.isspace] on ASCII: space, tab, newline, vertical tab, form feed,
    carriage return and the four separators 28..31. *)
Definition is_space (c : ascii) : bool :=
  let n := nat_of_ascii c in
  Nat.eqb n 32 || ((Nat.leb 9 n) && (Nat.leb n 13))
  || ((Nat.leb 28 n) && (Nat.leb n 31)).

Definition lower_char (c : ascii) : ascii :=
  if is_upper c then ascii_of_nat (nat_of_ascii c + 32) else c.

(** [s.lower()] *)
Fixpoint lower (s : string) : string :=
  match s with
  | EmptyString => EmptyString
  | String c rest => String (lower_char c) (lower rest)
  end.

Fixpoint find_from (i : Z) (s sub : string) : Z :=
  if prefix sub s then i
  else match s with
       | EmptyString => -1
       | String _ rest => find_from (i + 1) rest sub
       end.

(** [s.find(sub)]: the lowest index at which [sub] starts in [s], or -1. *)
Definition find (s sub : string) : Z := find_from 0 s sub.

(** [sub in s] *)
Definition contains (sub s : string) : bool := 0 <=? find s sub.

(** [s.split(" ")[0]]: the text before the first space. *)
Fixpoint split_space_head (s : string) : string :=
  match s with
  | EmptyString => EmptyString
  | String c rest =>
      if Ascii.eqb c " "%char then EmptyString
      else String c (split_space_head rest)
  end.

Fixpoint take_digits (s : string) : string :=
  match s with
  | EmptyString => EmptyString
  | String c rest =>
      if is_digit c then String c (take_digits rest) else EmptyString
  end.

(** [re.findall(r"\d+", s)[0]]: the first maximal run of digits;
    [IndexError] when [s] holds no digit. *)
Fixpoint first_digit_run (s : string) : outcome string :=
  match s with
  | EmptyString => Raised IndexError
  | String c rest =>
      if is_digit c then Returned (take_digits s) else first_digit_run rest
  end.

Definition digit_value (c : ascii) : Z := Z.of_nat (nat_of_ascii c) - 48.

(** Digits with single underscores between them, as [int] accepts.
    [seen] tells whether the previous character was a digit. *)
Fixpoint digits_value (acc : Z) (seen : bool) (s : string) : option Z :=
  match s with
  | EmptyString => if seen then Some acc else None
  | String c rest =>
      if is_digit c then digits_value (10 * acc + digit_value c) true rest
      else if Ascii.eqb c "_"%char && seen then digits_value acc false rest
      else None
  end.

Fixpoint lstrip (s : string) : string :=
  match s with
  | String c rest => if is_space c then lstrip rest else s
  | EmptyString => EmptyString
  end.

Fixpoint rstrip (s : string) : string :=
  match s with
  | EmptyString => EmptyString
  | String c rest =>
      match rstrip rest with
      | EmptyString => if is_space c then EmptyString else String c EmptyString
      | kept => String c kept
      end
  end.

(** [int(s)] for a string: surrounding white space, an optional sign,
    decimal digits; [ValueError] otherwise. *)
Definition int_of_str (s : string) : outcome Z :=
  let body := rstrip (lstrip s) in
  let parse sign digits :=
    match digits_value 0 false digits with
    | Some v => Returned (sign * v)
    | None => Raised ValueError
    end in
  match body with
  | String "-"%char digits => parse (-1) digits
  | String "+"%char digits => parse 1 digits
  | _ => parse 1 body
  end.

(** [str(n)] for an integer: its decimal text. *)
Definition str_of_int (n : Z) : string := NilZero.string_of_int (Z.to_int n).

(** Some character of [s] is an upper-case letter. *)
Fixpoint has_upper (s : string) : bool :=
  match s with
  | EmptyString => false
  | String c rest => is_upper c || has_upper rest
  end.

(** ** Dates ([datetime.date]) *)

Record date : Type := mkDate { year : Z; month : Z; day : Z }.

Definition is_leap (y : Z) : bool :=
  (y mod 4 =? 0) && (negb (y mod 100 =? 0) || (y mod 400 =? 0)).

Definition days_before_year (y : Z) : Z :=
  let p := y - 1 in p * 365 + p / 4 - p / 100 + p / 400.

Definition days_in_month (y m : Z) : Z :=
  if m =? 2 then (if is_leap y then 29 else 28)
  else if (m =? 4) || (m =? 6) || (m =? 9) || (m =? 11) then 30
  else 31.

Fixpoint days_before_month_aux (y : Z) (m : nat) : Z :=
  match m with
  | O => 0
  | S m' => days_before_month_aux y m' + days_in_month y (Z.of_nat m)
  end.

Definition days_before_month (y m : Z) : Z :=
  days_before_month_aux y (Z.to_nat (m - 1)).

(** [d.toordinal()]: 1 is 0001-01-01. *)
Definition toordinal (d : date) : Z :=
  days_before_year (year d) + days_before_month (year d) (month d) + day d.

(** [(b - a).days] *)
Definition days_between (a b : date) : Z := toordinal b - toordinal a.


End Py.

Import Py.

Declare Scope py_scope.
Delimit Scope py_scope with py.
Notation "x <- c ;; k" := (bind c (fun x => k))
  (at level 61, c at next level, right associativity) : py_scope.
Notation "' pat <- c ;; k" := (bind c (fun x => match x with pat => k end))
  (at level 61, pat pattern, c at next level, right associativity) : py_scope.
Local Open Scope py_scope.

(* ===================================================================== *)
(** * Decoded JSON *)
(* ===================================================================== *)

(** What [json.loads] produces: [None], booleans, integers, strings, lists
    and string-keyed dictionaries. *)
#[warnings="-register-all"]
Inductive json : Type :=
| JNull
| JBool (b : bool)
| JInt (z : Z)
| JStr (s : string)
| JList (items : list json)
| JDict (members : dict string json).

(** A segment of a key path: a mapping key or a sequence index. *)
Inductive key : Type :=
| KStr (s : string)
| KInt (i : Z).

Definition one_char (c : ascii) : json := JStr (String c EmptyString).

(** [element[key]] with the exception Python raises when it fails.
    Dictionaries raise [KeyError] for a key they do not hold; lists and
    strings take integer indices, raise [IndexError] out of range and
    [TypeError] for any other key; the remaining scalars are not
    subscriptable. *)
Definition getitem (element : json) (k : key) : outcome json :=
  match element, k with
  | JDict d, KStr s =>
      match dict_get d s with
      | Some v => Returned v
      | None => Raised KeyError
      end
  | JDict _, KInt _ => Raised KeyError
  | JList l, KInt i => list_index l i
  | JList _, KStr _ => Raised TypeError
  | JStr s, KInt i => list_index (map one_char (list_ascii_of_string s)) i
  | JStr _, KStr _ => Raised TypeError
  | (JNull | JBool _ | JInt _), _ => Raised TypeError
  end.

(** [d.get(k)] on a dictionary: [None] for a missing key. *)
Definition dict_get_or_none (d : dict string json) (k : string) : json :=
  match dict_get d k with
  | Some v => v
  | None => JNull
  end.

(** [for x in v]: the items of a list, the keys of a dictionary, the
    characters of a string. *)
Definition iterate (v : json) : outcome (list json) :=
  match v with
  | JList l => Returned l
  | JDict d => Returned (map JStr (keys d))
  | JStr s => Returned (map one_char (list_ascii_of_string s))
  | JNull | JBool _ | JInt _ => Raised TypeError
  end.

(** [v.lower()]: only strings have the method. *)
Definition str_lower (v : json) : outcome string :=
  match v with
  | JStr s => Returned (lower s)
  | _ => Raised AttributeError
  end.

(* ===================================================================== *)
(** * Containers *)
(* ===================================================================== *)

(** The records of [camply.containers] that the two files build and read,
    each in a module of its own so that fields keep their source names. *)

Module RecreationArea.
Record t : Type := {
  recreation_area : string;
  recreation_area_id : Z;
  recreation_area_location : string
}.
End RecreationArea.

Module CampgroundFacility.
Record t : Type := {
  facility_name : json;
  recreation_area : string;
  facility_id : Z;
  recreation_area_id : Z;
  map_id : Z
}.
End CampgroundFacility.

Module SearchWindow.
Record t : Type := { start_date : date; end_date : date }.
End SearchWindow.

(** The reservation link is the fixed address
    [https://washington.goingtocamp.com/create-booking/results] with these
    seven query values; they are kept apart instead of printed into text. *)
Module BookingLink.
Record t : Type := {
  mapId : Z;
  startDate : date;
  endDate : date;
  equipmentId : Z;
  subEquipmentId : json;
  partySize : Z;
  resourceLocationId : Z
}.
End BookingLink.

Module AvailableCampsite.
Record t : Type := {
  campsite_id : json;
  campsite_site_name : json;
  booking_date : date;
  booking_end_date : date;
  booking_nights : Z;
  campsite_loop_name : string;
  campsite_type : json;
  campsite_occupancy : json * json;
  campsite_use_type : string;
  availability_status : string;
  recreation_area : string;
  recreation_area_id : Z;
  facility_name : json;
  facility_id : Z;
  booking_url : BookingLink.t
}.
End AvailableCampsite.

(* ===================================================================== *)
(** * going_to_camp_provider.py *)
(* ===================================================================== *)

Module GoingToCampProvider.

(** [ResourceLocation] of gtc_api_responses.py. *)
Record ResourceLocation : Type := {
  ID : option Z;
  RecAreaID : Z;
  ParkAlerts : json;
  ResourceCategories : option (list Z);
  ResourceLocationID : option Z;
  ResourceLocationName : string
}.

Definition RECREATION_AREAS : dict string RecreationArea.t :=
  [ ("washington.goingtocamp.com"%string,
     {| RecreationArea.recreation_area := "Washington State Parks";
        RecreationArea.recreation_area_id := 1;
        RecreationArea.recreation_area_location := "Washington, USA" |});
    ("wisconsin.goingtocamp.com"%string,
     {| RecreationArea.recreation_area := "Wisconsin State Parks";
        RecreationArea.recreation_area_id := 2;
        RecreationArea.recreation_area_location := "Wisconsin, USA" |}) ].

(** [rec_area_lookup]: the first area of the table with this id, Python's
    [None] when the loop falls through. *)
Definition rec_area_lookup (rec_area_id : Z) : option RecreationArea.t :=
  List.find (fun ra => RecreationArea.recreation_area_id ra =? rec_area_id)
            (map snd RECREATION_AREAS).

(** [get_reservation_link] *)
Definition get_reservation_link (party_size : Z) (start_date end_date : date)
           (camp_area : CampgroundFacility.t) (resource_location_id : Z)
           (equipment_id : Z) (sub_equipment_id : json) : BookingLink.t :=
  {| BookingLink.mapId := CampgroundFacility.map_id camp_area;
     BookingLink.startDate := start_date;
     BookingLink.endDate := end_date;
     BookingLink.equipmentId := equipment_id;
     BookingLink.subEquipmentId := sub_equipment_id;
     BookingLink.partySize := party_size;
     BookingLink.resourceLocationId := resource_location_id |}.

(** ** fetch_nested_key *)

Definition is_dict_or_list (obj : json) : bool :=
  match obj with
  | JDict _ | JList _ => true
  | _ => false
  end.

(** The [for key in keys] loop: [KeyError] and [TypeError] end the call
    with [None]; any other exception escapes. *)
Fixpoint fetch_loop (_element : json) (keys : list key) : outcome json :=
  match keys with
  | [] => Returned _element
  | k :: rest =>
      match getitem _element k with
      | Returned next => fetch_loop next rest
      | Raised KeyError | Raised TypeError => Returned JNull
      | Raised e => Raised e
      end
  end.

Definition fetch_nested_key (obj : json) (keys : list key) : outcome json :=
  if negb (is_dict_or_list obj) then Raised AttributeError
  else if (length keys =? 0)%nat then Raised AttributeError
  else fetch_loop obj keys.

(** ** _api_request *)

Record Response (A : Type) : Type := {
  status_code : Z;
  content : A
}.
Arguments status_code {A} _.
Arguments content {A} _.

(** The request is answered by the transport; a status other than 200
    becomes [ConnectionError], the body is decoded otherwise. *)
Definition _api_request {A B : Type} (loads : A -> B) (response : Response A)
  : outcome B :=
  if status_code response =? 200 then Returned (loads (content response))
  else Raised ConnectionError.

(** ** _filter_facilities_responses *)

Inductive log_record : Type :=
| log_error (message : string)
| log_error_object (o : json)
| log_exception.

Definition as_optional_int (v : json) : option (option Z) :=
  match v with
  | JNull => Some None
  | JInt z => Some (Some z)
  | _ => None
  end.

Fixpoint as_int_list (l : list json) : option (list Z) :=
  match l with
  | [] => Some []
  | JInt z :: rest => option_map (cons z) (as_int_list rest)
  | _ :: _ => None
  end.

Definition as_optional_int_list (v : json) : option (option (list Z)) :=
  match v with
  | JNull => Some None
  | JList l => option_map Some (as_int_list l)
  | _ => None
  end.

(** Construction of a [ResourceLocation] from arguments that already have
    the type their field is annotated with ([int | None], [Any],
    [None | List[int]], [str]): such arguments are stored as they are.
    Any other argument gives [None] here.  For the name this is the
    validation error of the code: a [str] field takes neither [None] nor a
    list nor a dictionary.  For the other fields pydantic may convert a
    value of another type (the text "10" into 10) where this definition
    gives [None]: a facility built here is built alike by the code, the
    converse is claimed for a missing name only. *)
Definition ResourceLocation_init (ID ParkAlerts : json) (RecAreaID : Z)
           (ResourceCategories ResourceLocationID ResourceLocationName : json)
  : option ResourceLocation :=
  match as_optional_int ID, as_optional_int_list ResourceCategories,
        as_optional_int ResourceLocationID, ResourceLocationName with
  | Some id, Some cats, Some loc, JStr name =>
      Some {| ID := id; RecAreaID := RecAreaID; ParkAlerts := ParkAlerts;
              ResourceCategories := cats; ResourceLocationID := loc;
              ResourceLocationName := name |}
  | _, _, _, _ => None
  end.

(** The body of the [try]: the six arguments in source order. *)
Definition build_facility (rec_area_id : Z) (facil : dict string json)
  : outcome (option ResourceLocation) :=
  name <- fetch_nested_key (JDict facil)
            [KStr "resourceLocationLocalizedValues"; KStr "en-US"] ;;
  Returned (ResourceLocation_init
              (dict_get_or_none facil "mapId")
              (dict_get_or_none facil "parkAlerts")
              rec_area_id
              (dict_get_or_none facil "resourceCategoryIds")
              (dict_get_or_none facil "resourceLocationId")
              name).

(** [not facility.ResourceCategories] *)
Definition no_categories (facility : ResourceLocation) : bool :=
  match ResourceCategories facility with
  | None | Some [] => true
  | Some (_ :: _) => false
  end.

Definition has_category (c : Z) (facility : ResourceLocation) : bool :=
  match ResourceCategories facility with
  | None => false
  | Some l => existsb (Z.eqb c) l
  end.

Definition CAMPSITE : Z := -2147483648.
Definition GROUP_CAMP : Z := -2147483643.

(** [any([CAMPSITE in cats, GROUP_CAMP in cats])] *)
Definition is_reservable (facility : ResourceLocation) : bool :=
  has_category CAMPSITE facility || has_category GROUP_CAMP facility.

Definition invalid_facility_log (facil : dict string json) : list log_record :=
  [ log_error "That doesn't look like a valid Campground Facility";
    log_error_object (JDict facil);
    log_exception ].

(** The [for facil in facilities] loop, with the list accumulated so far
    and the records logged so far. *)
Fixpoint filter_loop (rec_area_id : Z) (facilities : list (dict string json))
         (log : list log_record) (filtered_facilities : list ResourceLocation)
  : list log_record * outcome (list ResourceLocation) :=
  match facilities with
  | [] => (log, Returned filtered_facilities)
  | facil :: rest =>
      match build_facility rec_area_id facil with
      | Raised e => (log, Raised e)
      | Returned None =>
          (log ++ invalid_facility_log facil, Raised ProviderSearchError)
      | Returned (Some facility) =>
          if no_categories facility
          then filter_loop rec_area_id rest log filtered_facilities
          else if is_reservable facility
          then filter_loop rec_area_id rest log
                           (filtered_facilities ++ [facility])
          else filter_loop rec_area_id rest log filtered_facilities
      end
  end.

Definition _filter_facilities_responses (rec_area_id : Z)
           (facilities : list (dict string json))
  : list log_record * outcome (list ResourceLocation) :=
  filter_loop rec_area_id facilities [] [].

(** ** The availability map endpoint *)

(** The [search_filter] dictionary: the keys [list_site_availability]
    writes.  The two dates are kept as dates; the source sends their ISO
    text. *)
Record SearchFilter : Type := {
  mapId : Z;
  resourceLocationId : Z;
  bookingCategoryId : Z;
  startDate : date;
  endDate : date;
  isReserving : bool;
  getDailyAvailability : bool;
  partySize : Z;
  equipmentCategoryId : Z;
  subEquipmentCategoryId : json;
  filterData : list json
}.

(** [search_filter["mapId"] = m] *)
Definition set_mapId (search_filter : SearchFilter) (m : Z) : SearchFilter :=
  {| mapId := m;
     resourceLocationId := resourceLocationId search_filter;
     bookingCategoryId := bookingCategoryId search_filter;
     startDate := startDate search_filter;
     endDate := endDate search_filter;
     isReserving := isReserving search_filter;
     getDailyAvailability := getDailyAvailability search_filter;
     partySize := partySize search_filter;
     equipmentCategoryId := equipmentCategoryId search_filter;
     subEquipmentCategoryId := subEquipmentCategoryId search_filter;
     filterData := filterData search_filter |}.

(** One entry of a resource's availability list; [availability] is the
    only key the code reads.  The entry is taken to be a dictionary that
    holds the key with an integer: an entry of another shape, on which the
    subscript would raise, is outside this record. *)
Record AvailabilityDetail : Type := { availability : Z }.

(** The body of a map response as transmitted: the members of its two
    objects, keyed by resource id and by child map id.  The ids are the
    integers that the member names spell.  The record holds answers of the
    expected shape only: a body that is no JSON text, or that lacks one of
    the two objects, on which [json.loads] or the subscripts of
    [_find_matching_resources] would raise, is outside it. *)
Record MapBody : Type := {
  body_resourceAvailabilities : list (Z * list AvailabilityDetail);
  body_mapLinkAvailabilities : list (Z * json)
}.

(** The decoded body. *)
Record MapResults : Type := {
  resourceAvailabilities : dict Z (list AvailabilityDetail);
  mapLinkAvailabilities : dict Z json
}.

Definition loads_map (body : MapBody) : MapResults :=
  {| resourceAvailabilities := dict_of_items (body_resourceAvailabilities body);
     mapLinkAvailabilities := dict_of_items (body_mapLinkAvailabilities body) |}.

(** The transport for the MAPDATA endpoint: recreation area and query. *)
Definition MapTransport : Type := Z -> SearchFilter -> Response MapBody.

Definition Availabilities : Type := dict Z (list AvailabilityDetail).

(** ** _find_matching_resources

    The [search_filter] dictionary is shared by the whole call tree and
    written before each descent, so every call hands back the filter as
    it left it.  [limit] is the number of nested frames the interpreter
    still grants: a call that has none left raises [RecursionError]. *)

(** [for mapId in results["mapLinkAvailabilities"].keys()] *)
Fixpoint visit_maps
         (descend : SearchFilter -> outcome (Availabilities * SearchFilter))
         (map_ids : list Z) (availabilities : Availabilities)
         (search_filter : SearchFilter)
  : outcome (Availabilities * SearchFilter) :=
  match map_ids with
  | [] => Returned (availabilities, search_filter)
  | m :: rest =>
      '(found, search_filter') <- descend (set_mapId search_filter m) ;;
      visit_maps descend rest (dict_update availabilities found) search_filter'
  end.

Fixpoint _find_matching_resources (limit : nat) (http : MapTransport)
         (rec_area_id : Z) (search_filter : SearchFilter)
  : outcome (Availabilities * SearchFilter) :=
  match limit with
  | O => Raised RecursionError
  | S limit' =>
      results <- _api_request loads_map (http rec_area_id search_filter) ;;
      visit_maps (_find_matching_resources limit' http rec_area_id)
                 (keys (mapLinkAvailabilities results))
                 (resourceAvailabilities results)
                 search_filter
  end.

(** ** list_site_availability *)

Definition initial_filter (campground : CampgroundFacility.t)
           (start_date end_date : date) (equipment_category : json)
  : SearchFilter :=
  {| mapId := CampgroundFacility.map_id campground;
     resourceLocationId := CampgroundFacility.facility_id campground;
     bookingCategoryId := 0;
     startDate := start_date;
     endDate := end_date;
     isReserving := true;
     getDailyAvailability := false;
     partySize := 1;
     equipmentCategoryId := -32768;
     subEquipmentCategoryId := equipment_category;
     filterData := [] |}.

(** [for resource_id, availability_details in resources.items()] *)
Fixpoint available_loop (items : list (Z * list AvailabilityDetail))
         (availabilities : list Z) : outcome (list Z) :=
  match items with
  | [] => Returned availabilities
  | (resource_id, availability_details) :: rest =>
      first <- list_index availability_details 0 ;;
      if availability first =? 0
      then available_loop rest (availabilities ++ [resource_id])
      else available_loop rest availabilities
  end.

Definition list_site_availability (limit : nat) (http : MapTransport)
           (campground : CampgroundFacility.t) (start_date end_date : date)
           (equipment_category : json) : outcome (list Z) :=
  '(resources, _) <- _find_matching_resources limit http
                       (CampgroundFacility.recreation_area_id campground)
                       (initial_filter campground start_date end_date
                                       equipment_category) ;;
  available_loop resources [].

(** ** list_equipment_categories *)

Record Category : Type := { id : json; max_size : Z }.

(** The three size rules, applied in source order to the lowered name. *)
Definition category_max_size (category_name : string) : outcome Z :=
  size_tent <- (if contains "tent" category_name
                then int_of_str (split_space_head category_name)
                else Returned 0) ;;
  size_up_to <- (if contains "rv/trailer up to" category_name
                 then digits <- first_digit_run category_name ;;
                      int_of_str digits
                 else Returned size_tent) ;;
  Returned (if contains "rv/trailer over" category_name
            then 1000 else size_up_to).

(** [for sub_category in results[0]["subEquipmentCategories"]] *)
Fixpoint categories_loop (sub_categories_json : list json)
         (sub_categories : dict string Category)
  : outcome (dict string Category) :=
  match sub_categories_json with
  | [] => Returned sub_categories
  | sub_category :: rest =>
      name <- fetch_nested_key sub_category
                [KStr "localizedValues"; KInt 0; KStr "name"] ;;
      category_name <- str_lower name ;;
      size <- category_max_size category_name ;;
      category_id <- getitem sub_category (KStr "subEquipmentCategoryId") ;;
      categories_loop rest
        (dict_set sub_categories category_name
                  {| id := category_id; max_size := size |})
  end.

(** The transport for the LIST_EQUIPMENT endpoint. *)
Definition EquipmentTransport : Type := Z -> Response json.

Definition list_equipment_categories (http : EquipmentTransport)
           (rec_area_id : Z) : outcome (dict string Category) :=
  results <- _api_request (fun body => body) (http rec_area_id) ;;
  primary <- getitem results (KInt 0) ;;
  listing <- getitem primary (KStr "subEquipmentCategories") ;;
  sub_categories_json <- iterate listing ;;
  categories_loop sub_categories_json [].

(** ** find_recreation_areas *)

(** [for key, rec_area in RECREATION_AREAS.items()] *)
Fixpoint areas_loop (search_string : string)
         (items : list (string * RecreationArea.t))
         (rec_areas : list RecreationArea.t) : list RecreationArea.t :=
  match items with
  | [] => rec_areas
  | (_, rec_area) :: rest =>
      if contains search_string
                  (lower (RecreationArea.recreation_area rec_area))
         || contains search_string
                     (lower (RecreationArea.recreation_area_location rec_area))
      then areas_loop search_string rest (rec_areas ++ [rec_area])
      else areas_loop search_string rest rec_areas
  end.

(** Without a search string, or with the empty one, the values of the
    table; the matching areas otherwise.  The two calls that log the
    search and its result are left out. *)
Definition find_recreation_areas (search_string : option string)
  : list RecreationArea.t :=
  match search_string with
  | None => map snd RECREATION_AREAS
  | Some text =>
      if String.eqb text "" then map snd RECREATION_AREAS
      else areas_loop text RECREATION_AREAS []
  end.

(** [_hostname_for]: the first host name of the table whose area has this
    id, [None] otherwise. *)
Definition _hostname_for (recreation_area_id : Z) : option string :=
  option_map fst
    (List.find (fun item =>
                  RecreationArea.recreation_area_id (snd item)
                  =? recreation_area_id)
               RECREATION_AREAS).

(** ** find_campgrounds *)

(** [find_facilities_per_recreation_area], taken as given: the facilities
    of one recreation area. *)
Definition PerArea : Type := Z -> outcome (list CampgroundFacility.t).

(** [for recreation_area in rec_area_id: facilities += ...] *)
Fixpoint facilities_loop (per_area : PerArea) (rec_area_id : list Z)
         (facilities : list CampgroundFacility.t)
  : outcome (list CampgroundFacility.t) :=
  match rec_area_id with
  | [] => Returned facilities
  | recreation_area :: rest =>
      found <- per_area recreation_area ;;
      facilities_loop per_area rest (facilities ++ found)
  end.

(** The local [facilities] is bound only when [rec_area_id] is neither
    [None] nor empty; the [return] reads it in every case. *)
Definition find_campgrounds (per_area : PerArea)
           (rec_area_id : option (list Z))
  : outcome (list CampgroundFacility.t) :=
  match rec_area_id with
  | None | Some [] => Raised UnboundLocalError
  | Some areas => facilities_loop per_area areas []
  end.

End GoingToCampProvider.

(* ===================================================================== *)
(** * search_going_to_camp.py *)
(* ===================================================================== *)

Module SearchGoingToCamp.
Import GoingToCampProvider.

(** The attributes of a [SearchGoingToCamp] object that its methods read.
    [search_window], [weekends_only] and [nights] are stored by the base
    class; [equipment] is the category id chosen at construction. *)
Record t : Type := {
  _recreation_area_id : list Z;
  campgrounds : list CampgroundFacility.t;
  search_window : list SearchWindow.t;
  weekends_only : bool;
  nights : Z;
  equipment : json
}.

(** ** _get_equipment_category *)

(** One turn of the loop over the listing: the id the turn returns, if it
    returns. *)
Definition match_category (our_equipment_name : string)
           (our_equipment_length : Z) (eq_name : string) (category : Category)
  : option json :=
  let category_id := id category in
  if find eq_name our_equipment_name >? 0 then
    if our_equipment_length =? 0 then Some category_id
    else if (our_equipment_length >? 0)
            && (our_equipment_length <=? max_size category)
    then Some category_id
    else None
  else None.

(** [for eq_name, category in equipment_categories.items()] *)
Fixpoint equipment_loop (our_equipment_name : string)
         (our_equipment_length : Z) (items : list (string * Category))
  : option json :=
  match items with
  | [] => None
  | (eq_name, category) :: rest =>
      match match_category our_equipment_name our_equipment_length
                           eq_name category with
      | Some category_id => Some category_id
      | None => equipment_loop our_equipment_name our_equipment_length rest
      end
  end.

Definition no_category_log : list log_record :=
  [ log_error "No equipment category found that matches your equipment" ].

(** The descriptor is the first pair of [equipment]; its length is an
    integer already.  When no category is returned the method logs an
    error and leaves through [exit(1)]. *)
Definition _get_equipment_category (http : EquipmentTransport)
           (recreation_area_id : list Z) (equipment : list (string * Z))
  : list log_record * outcome json :=
  match
    ('(our_equipment_name, our_equipment_length) <- list_index equipment 0 ;;
     rec_area_id <- list_index recreation_area_id 0 ;;
     equipment_categories <- list_equipment_categories http rec_area_id ;;
     Returned (equipment_loop our_equipment_name our_equipment_length
                              equipment_categories))
  with
  | Raised e => ([], Raised e)
  | Returned (Some category_id) => ([], Returned category_id)
  | Returned None => (no_category_log, Raised (SystemExit 1))
  end.

(** ** get_all_campsites *)

(** The provider's [get_site_details], taken as given: recreation area
    and resource id to the decoded detail record, completed with its
    [site_attributes]. *)
Definition SiteDetails : Type := Z -> Z -> outcome json.

(** The body of [for site in sites]: one record, built from the detail
    record of the campground's facility id and from the first search
    window. *)
Definition site_record (self : t) (get_site_details : SiteDetails)
           (campground : CampgroundFacility.t) (site : Z)
  : outcome AvailableCampsite.t :=
  rec_area_id <- list_index (_recreation_area_id self) 0 ;;
  site_details <- get_site_details rec_area_id
                    (CampgroundFacility.facility_id campground) ;;
  window <- list_index (search_window self) 0 ;;
  let nights := days_between (SearchWindow.start_date window)
                             (SearchWindow.end_date window) in
  let start_dt := SearchWindow.start_date window in
  let end_dt := SearchWindow.end_date window in
  let rec_area := rec_area_lookup rec_area_id in
  let booking_url :=
    get_reservation_link 1 (SearchWindow.start_date window)
      (SearchWindow.end_date window) campground
      (CampgroundFacility.facility_id campground) (-32768) (equipment self) in
  resource_id <- getitem site_details (KStr "resourceId") ;;
  localized <- getitem site_details (KStr "localizedValues") ;;
  localized0 <- getitem localized (KInt 0) ;;
  site_name <- getitem localized0 (KStr "name") ;;
  attributes <- getitem site_details (KStr "site_attributes") ;;
  service_type <- getitem attributes (KStr "Service Type") ;;
  min_capacity <- getitem site_details (KStr "minCapacity") ;;
  max_capacity <- getitem site_details (KStr "maxCapacity") ;;
  area_name <- match rec_area with
               | Some area => Returned (RecreationArea.recreation_area area)
               | None => Raised AttributeError
               end ;;
  Returned
    {| AvailableCampsite.campsite_id := resource_id;
       AvailableCampsite.campsite_site_name := site_name;
       AvailableCampsite.booking_date := start_dt;
       AvailableCampsite.booking_end_date := end_dt;
       AvailableCampsite.booking_nights := nights;
       AvailableCampsite.campsite_loop_name := "Unknown";
       AvailableCampsite.campsite_type := service_type;
       AvailableCampsite.campsite_occupancy := (min_capacity, max_capacity);
       AvailableCampsite.campsite_use_type := "N/A";
       AvailableCampsite.availability_status := "Available";
       AvailableCampsite.recreation_area := area_name;
       AvailableCampsite.recreation_area_id := rec_area_id;
       AvailableCampsite.facility_name :=
         CampgroundFacility.facility_name campground;
       AvailableCampsite.facility_id :=
         CampgroundFacility.facility_id campground;
       AvailableCampsite.booking_url := booking_url |}.

(** [for site in sites], appending to [available_sites]. *)
Fixpoint sites_loop (self : t) (get_site_details : SiteDetails)
         (campground : CampgroundFacility.t) (sites : list Z)
         (available_sites : list AvailableCampsite.t)
  : outcome (list AvailableCampsite.t) :=
  match sites with
  | [] => Returned available_sites
  | site :: rest =>
      record <- site_record self get_site_details campground site ;;
      sites_loop self get_site_details campground rest
                 (available_sites ++ [record])
  end.

(** [for campground in self.campgrounds].  The local [available_sites] is
    assigned inside the loop body, so it is unbound ([None]) until the
    first campground has been searched. *)
Fixpoint campgrounds_loop (limit : nat) (http : MapTransport)
         (get_site_details : SiteDetails) (self : t)
         (remaining : list CampgroundFacility.t)
         (available_sites : option (list AvailableCampsite.t))
  : outcome (list AvailableCampsite.t) :=
  match remaining with
  | [] =>
      match available_sites with
      | Some found => Returned found
      | None => Raised UnboundLocalError
      end
  | campground :: rest =>
      window <- list_index (search_window self) 0 ;;
      sites <- list_site_availability limit http campground
                 (SearchWindow.start_date window)
                 (SearchWindow.end_date window) (equipment self) ;;
      found <- sites_loop self get_site_details campground sites [] ;;
      campgrounds_loop limit http get_site_details self rest (Some found)
  end.

Definition get_all_campsites (limit : nat) (http : MapTransport)
           (get_site_details : SiteDetails) (self : t)
  : outcome (list AvailableCampsite.t) :=
  campgrounds_loop limit http get_site_details self (campgrounds self) None.

(** ** _get_searchable_campgrounds *)

(** The [campgrounds] argument kept in [_campground_object]: [None], one
    text, or a list of texts. *)
Definition CampgroundObject : Type := option (string + list string).

(** [self._campground_object in [(), [], None]] *)
Definition no_campgrounds (campground_object : CampgroundObject) : bool :=
  match campground_object with
  | None | Some (inr []) => true
  | Some (inl _) | Some (inr (_ :: _)) => false
  end.

(** [x in [(), [], None]] for a list that may be [None]. *)
Definition no_ids (ids : option (list Z)) : bool :=
  match ids with
  | None | Some [] => true
  | Some (_ :: _) => false
  end.

(** [text in self._campground_object]: a substring test on a text,
    membership in a list, [TypeError] on [None]. *)
Definition requested (text : string) (campground_object : CampgroundObject)
  : outcome bool :=
  match campground_object with
  | None => Raised TypeError
  | Some (inl whole) => Returned (contains text whole)
  | Some (inr texts) => Returned (existsb (String.eqb text) texts)
  end.

(** [for facility in facilities] of [_get_campgrounds_by_campground_id] *)
Fixpoint campground_id_loop (campground_object : CampgroundObject)
         (facilities filtered_facilities : list CampgroundFacility.t)
  : outcome (list CampgroundFacility.t) :=
  match facilities with
  | [] => Returned filtered_facilities
  | facility :: rest =>
      wanted <- requested (str_of_int (CampgroundFacility.facility_id facility))
                          campground_object ;;
      if wanted
      then campground_id_loop campground_object rest
                              (filtered_facilities ++ [facility])
      else campground_id_loop campground_object rest filtered_facilities
  end.

Definition _get_campgrounds_by_campground_id (per_area : PerArea)
           (campground_object : CampgroundObject)
           (recreation_area_id : option (list Z))
  : outcome (list CampgroundFacility.t) :=
  facilities <- find_campgrounds per_area recreation_area_id ;;
  campground_id_loop campground_object facilities [].

Definition _get_campgrounds_by_recreation_area_id (per_area : PerArea)
           (campground_object : CampgroundObject)
           (recreation_area_id : option (list Z))
  : outcome (list CampgroundFacility.t) :=
  if negb (no_campgrounds campground_object)
  then _get_campgrounds_by_campground_id per_area campground_object
                                         recreation_area_id
  else find_campgrounds per_area recreation_area_id.

Definition missing_selector_log : list log_record :=
  [ log_error
      "You must provide a Campground and Recreation Area ID with this provider" ].

(** [_get_campgrounds_by_campsite_id] is inherited; it is taken as given,
    from the campsite ids to the campgrounds that hold them. *)
Definition ByCampsite : Type := list Z -> outcome (list CampgroundFacility.t).

Definition _get_searchable_campgrounds (per_area : PerArea)
           (by_campsite : ByCampsite) (campground_object : CampgroundObject)
           (recreation_area_id campsites : option (list Z))
  : list log_record * outcome (list CampgroundFacility.t) :=
  if no_campgrounds campground_object || no_ids recreation_area_id
  then (missing_selector_log, Raised (SystemExit 1))
  else if negb (no_ids campsites)
  then ([], by_campsite match campsites with
                        | Some ids => ids
                        | None => []
                        end)
  else ([], _get_campgrounds_by_recreation_area_id
              per_area campground_object recreation_area_id).

End SearchGoingToCamp.

Import GoingToCampProvider.
Import SearchGoingToCamp.

(* ===================================================================== *)
(** * Notions used by the statements *)
(* ===================================================================== *)

(** The value under resource id [r] once the direct answer and the answers
    of the child maps, in visiting order, have been merged: every child
    that knows [r] replaces what was found before it. *)
Definition merged_lookup (limit : nat) (http : MapTransport) (rec_area_id : Z)
           (search_filter : SearchFilter) (r : Z)
           (map_ids : list Z) (direct : option (list AvailabilityDetail))
  : option (list AvailabilityDetail) :=
  fold_left
    (fun found m =>
       match _find_matching_resources limit http rec_area_id
                                      (set_mapId search_filter m) with
       | Returned (child, _) =>
           match dict_get child r with
           | Some v => Some v
           | None => found
           end
       | Raised _ => found
       end)
    map_ids direct.

(** The child maps that the answer to a query links to: none when the
    request fails. *)
Definition child_maps (http : MapTransport) (rec_area_id : Z)
           (search_filter : SearchFilter) : list Z :=
  match _api_request loads_map (http rec_area_id search_filter) with
  | Returned results => keys (mapLinkAvailabilities results)
  | Raised _ => []
  end.

(** [links http rec f m m']: queried with map [m], the platform links to
    map [m']. *)
Definition links (http : MapTransport) (rec_area_id : Z)
           (search_filter : SearchFilter) (m m' : Z) : Prop :=
  In m' (child_maps http rec_area_id (set_mapId search_filter m)).

(** Two filters that differ at most in their map id. *)
Definition same_query (f g : SearchFilter) : Prop :=
  forall m, set_mapId f m = set_mapId g m.

(** The first entry of a resource's list says available. *)
Definition first_entry_available (details : list AvailabilityDetail) : bool :=
  match details with
  | first :: _ => availability first =? 0
  | [] => false
  end.

(** The segments reached by a key path, while every subscript succeeds. *)
Fixpoint follow (element : json) (path : list key) : option json :=
  match path with
  | [] => Some element
  | k :: rest =>
      match getitem element k with
      | Returned next => follow next rest
      | Raised _ => None
      end
  end.

(** A segment that is absent or of the wrong shape for the element it is
    applied to: a key the mapping does not hold, a key that is no index
    applied to a list or a string, any key applied to [None], a boolean
    or a number.  An integer index into a list or a string is left out,
    in range or not. *)
Definition absent_or_misshapen (element : json) (k : key) : bool :=
  match element, k with
  | JDict d, KStr s => negb (key_in s d)
  | JDict _, KInt _ => true
  | (JList _ | JStr _), KStr _ => true
  | (JList _ | JStr _), KInt _ => false
  | (JNull | JBool _ | JInt _), _ => true
  end.

(** The facility that a raw listing entry stands for, when its fields
    pass validation. *)
Definition normalize (rec_area_id : Z) (facil : dict string json)
  : option ResourceLocation :=
  match build_facility rec_area_id facil with
  | Returned built => built
  | Raised _ => None
  end.

(** The one required field that a listing entry supplies is missing: the
    lookup of its localized name gives [None]. *)
Definition lacks_name (facil : dict string json) : Prop :=
  fetch_nested_key (JDict facil)
                   [KStr "resourceLocationLocalizedValues"; KStr "en-US"]
  = Returned JNull.

(** The category set of a facility meets the bookable categories. *)
Definition intersects_bookable (facility : ResourceLocation) : Prop :=
  exists (categories : list Z) (c : Z),
    ResourceCategories facility = Some categories /\
    In c categories /\ In c [CAMPSITE; GROUP_CAMP].

(** The test the filter applies to a validated facility. *)
Definition kept (facility : ResourceLocation) : bool :=
  negb (no_categories facility) && is_reservable facility.





(** Every entry of the listing is named in lower case and sized by its
    name. *)
Definition well_listed (listing : dict string Category) : Prop :=
  forall name category,
    In (name, category) listing ->
    lower name = name /\ category_max_size name = Returned (max_size category).

(** A facility is asked for by the campgrounds given: its id, as text,
    occurs in the one text or is an element of the list. *)
Definition selects (given : string + list string)
           (facility : CampgroundFacility.t) : bool :=
  let text := str_of_int (CampgroundFacility.facility_id facility) in
  match given with
  | inl whole => contains text whole
  | inr texts => existsb (String.eqb text) texts
  end.

(* ===================================================================== *)
(** * Sample data *)
(* ===================================================================== *)

Module Sample.

Definition free : AvailabilityDetail := {| availability := 0 |}.
Definition taken : AvailabilityDetail := {| availability := 1 |}.

Definition ok_map (resources : list (Z * list AvailabilityDetail))
           (children : list Z) : Response MapBody :=
  {| status_code := 200;
     content := {| body_resourceAvailabilities := resources;
                   body_mapLinkAvailabilities :=
                     map (fun m => (m, JList [JInt 0])) children |} |}.

(** Map 10 holds resources 1 and 2 and links to map 11, which holds
    resource 3; nothing else exists. *)
Definition park_http : MapTransport :=
  fun _ search_filter =>
    if mapId search_filter =? 10
    then ok_map [(1, [free; free]); (2, [free; free])] [11]
    else if mapId search_filter =? 11
    then ok_map [(3, [free; free])] []
    else ok_map [] [].

(** Map 10 and its child map 11 both report resource 1, with different
    availability. *)
Definition overlap_http : MapTransport :=
  fun _ search_filter =>
    if mapId search_filter =? 10
    then ok_map [(1, [free]); (2, [free])] [11]
    else if mapId search_filter =? 11
    then ok_map [(1, [taken])] []
    else ok_map [] [].

(** Map 10 links to map 11, which links back to map 10. *)
Definition cyclic_http : MapTransport :=
  fun _ search_filter =>
    if mapId search_filter =? 10
    then ok_map [(1, [free])] [11]
    else ok_map [(2, [free])] [10].

(** Resource 1 comes without any availability entry. *)
Definition blank_http : MapTransport :=
  fun _ _ => ok_map [(1, []); (2, [free])] [].

(** Nothing is reachable: every request is answered with status 503. *)
Definition down_http : MapTransport :=
  fun _ _ => {| status_code := 503;
                content := {| body_resourceAvailabilities := [];
                              body_mapLinkAvailabilities := [] |} |}.

(** Resource 1 is free on the first day of the stay and taken on the
    second. *)
Definition half_free_http : MapTransport :=
  fun _ _ => ok_map [(1, [free; taken]); (2, [taken; free])] [].

Definition campground_10 : CampgroundFacility.t :=
  {| CampgroundFacility.facility_name := JStr "Lake Loop";
     CampgroundFacility.recreation_area := "Washington State Parks, WA";
     CampgroundFacility.facility_id := 100;
     CampgroundFacility.recreation_area_id := 1;
     CampgroundFacility.map_id := 10 |}.

Definition campground_20 : CampgroundFacility.t :=
  {| CampgroundFacility.facility_name := JStr "Ridge Loop";
     CampgroundFacility.recreation_area := "Washington State Parks, WA";
     CampgroundFacility.facility_id := 200;
     CampgroundFacility.recreation_area_id := 1;
     CampgroundFacility.map_id := 20 |}.

Definition july_4 : date := mkDate 2025 7 4.
Definition july_6 : date := mkDate 2025 7 6.

(** [{"a": [{"b": 1}]}] *)
Definition nested : json :=
  JDict [("a"%string, JList [JDict [("b"%string, JInt 1)]])].

Definition entry (map_id : Z) (categories : json) (location : Z)
           (name : string) : dict string json :=
  [ ("mapId"%string, JInt map_id);
    ("resourceCategoryIds"%string, categories);
    ("resourceLocationId"%string, JInt location);
    ("resourceLocationLocalizedValues"%string,
     JDict [("en-US"%string, JStr name)]) ].

Definition lake_entry : dict string json :=
  entry 10 (JList [JInt (-2147483648)]) 100 "Lake Loop".

Definition group_entry : dict string json :=
  entry 30 (JList [JInt (-2147483643); JInt (-2147483647)]) 300 "Group Field".

Definition picnic_entry : dict string json :=
  entry 40 (JList [JInt (-2147483647)]) 400 "Picnic Shelter".

Definition bare_entry : dict string json :=
  entry 50 (JList []) 500 "Trailhead".

(** An entry without its localized name. *)
Definition nameless_entry : dict string json :=
  [ ("mapId"%string, JInt 20);
    ("resourceCategoryIds"%string, JList [JInt (-2147483648)]);
    ("resourceLocationId"%string, JInt 200) ].

Definition lake : ResourceLocation :=
  {| ID := Some 10; RecAreaID := 1; ParkAlerts := JNull;
     ResourceCategories := Some [-2147483648];
     ResourceLocationID := Some 100;
     ResourceLocationName := "Lake Loop" |}.

Definition group_field : ResourceLocation :=
  {| ID := Some 30; RecAreaID := 1; ParkAlerts := JNull;
     ResourceCategories := Some [-2147483643; -2147483647];
     ResourceLocationID := Some 300;
     ResourceLocationName := "Group Field" |}.

Definition sub_category (name : string) (category_id : Z) : json :=
  JDict [ ("localizedValues"%string, JList [JDict [("name"%string, JStr name)]]);
          ("subEquipmentCategoryId"%string, JInt category_id) ].

(** The equipment listing of the scenario: "1 Tent" with id 5,
    "RV/Trailer up to 20'" with id 6, "RV/Trailer over 40'" with id 7. *)
Definition equipment_http : EquipmentTransport :=
  fun _ =>
    {| status_code := 200;
       content :=
         JList [ JDict [ ("subEquipmentCategories"%string,
                          JList [ sub_category "1 Tent" 5;
                                  sub_category "RV/Trailer up to 20'" 6;
                                  sub_category "RV/Trailer over 40'" 7 ]) ] ] |}.

(** A listing with one category that no size rule applies to. *)
Definition van_http : EquipmentTransport :=
  fun _ =>
    {| status_code := 200;
       content :=
         JList [ JDict [ ("subEquipmentCategories"%string,
                          JList [ sub_category "Van/Camper" 8 ]) ] ] |}.

Definition van : Category := {| id := JInt 8; max_size := 0 |}.

Definition equipment_listing : dict string Category :=
  [ ("1 tent"%string, {| id := JInt 5; max_size := 1 |});
    ("rv/trailer up to 20'"%string, {| id := JInt 6; max_size := 20 |});
    ("rv/trailer over 40'"%string, {| id := JInt 7; max_size := 1000 |}) ].

Definition filter_10 : SearchFilter :=
  initial_filter campground_10 july_4 july_6 (JInt 7).

(** A rank for the maps of [park_http]: map 10 above all others. *)
Definition park_rank (m : Z) : nat := if m =? 10 then 1%nat else 0%nat.


(** Every recreation area has the two sample campgrounds. *)
Definition two_campgrounds : PerArea :=
  fun _ => Returned [campground_10; campground_20].

Definition no_campsite_lookup : ByCampsite := fun _ => Returned [].

(** No recreation area can be listed: the platform is down. *)
Definition down_area : PerArea := fun _ => Raised ConnectionError.

(** Site details with every field the search reads. *)
Definition site_details : SiteDetails :=
  fun _ resource_id =>
    Returned
      (JDict [ ("resourceId"%string, JInt resource_id);
               ("localizedValues"%string,
                JList [JDict [("name"%string, JStr "Site")]]);
               ("site_attributes"%string,
                JDict [("Service Type"%string, JStr "Electric")]);
               ("minCapacity"%string, JInt 1);
               ("maxCapacity"%string, JInt 6) ]).

Definition search (grounds : list CampgroundFacility.t)
           (window : SearchWindow.t) (weekends : bool) : SearchGoingToCamp.t :=
  {| _recreation_area_id := [1];
     campgrounds := grounds;
     search_window := [window];
     weekends_only := weekends;
     nights := 1;
     equipment := JInt 7 |}.



Definition weekend : SearchWindow.t :=
  {| SearchWindow.start_date := july_4; SearchWindow.end_date := july_6 |}.

(** The record built for a site of campground 10 over a window. *)
Definition record_10 (window : SearchWindow.t) : AvailableCampsite.t :=
  {| AvailableCampsite.campsite_id := JInt 100;
     AvailableCampsite.campsite_site_name := JStr "Site";
     AvailableCampsite.booking_date := SearchWindow.start_date window;
     AvailableCampsite.booking_end_date := SearchWindow.end_date window;
     AvailableCampsite.booking_nights := 2;
     AvailableCampsite.campsite_loop_name := "Unknown";
     AvailableCampsite.campsite_type := JStr "Electric";
     AvailableCampsite.campsite_occupancy := (JInt 1, JInt 6);
     AvailableCampsite.campsite_use_type := "N/A";
     AvailableCampsite.availability_status := "Available";
     AvailableCampsite.recreation_area := "Washington State Parks";
     AvailableCampsite.recreation_area_id := 1;
     AvailableCampsite.facility_name := JStr "Lake Loop";
     AvailableCampsite.facility_id := 100;
     AvailableCampsite.booking_url :=
       {| BookingLink.mapId := 10;
          BookingLink.startDate := SearchWindow.start_date window;
          BookingLink.endDate := SearchWindow.end_date window;
          BookingLink.equipmentId := -32768;
          BookingLink.subEquipmentId := JInt 7;
          BookingLink.partySize := 1;
          BookingLink.resourceLocationId := 100 |} |}.

End Sample.

(* ===================================================================== *)
(** * Dictionaries: lookup after assignment and update *)
(* ===================================================================== *)

Section DictFacts.
Context {K V : Type} `{Hashable K}.

Lemma key_eqb_refl (k : K) : key_eqb k k = true.
Proof. destruct (key_eqb_spec k k); congruence. Qed.

Lemma key_eqb_neq (a b : K) : a <> b -> key_eqb a b = false.
Proof. intros Hab. destruct (key_eqb_spec a b); congruence. Qed.

Lemma dict_get_set_same (d : dict K V) k v :
  dict_get (dict_set d k v) k = Some v.
Proof.
  induction d as [|[k' v'] d IH]; simpl.
  - now rewrite key_eqb_refl.
  - destruct (key_eqb k' k) eqn:E; simpl; rewrite E; auto.
Qed.

Lemma dict_get_set_other (d : dict K V) k v k' :
  k <> k' -> dict_get (dict_set d k v) k' = dict_get d k'.
Proof.
  intros Hne. induction d as [|[k0 v0] d IH]; simpl.
  - now rewrite key_eqb_neq.
  - destruct (key_eqb_spec k0 k) as [->|Hk]; simpl.
    + now rewrite (key_eqb_neq k k').
    + now rewrite IH.
Qed.

Lemma dict_get_None_keys (d : dict K V) k :
  dict_get d k = None <-> ~ In k (keys d).
Proof.
  induction d as [|[k0 v0] d IH]; simpl.
  - tauto.
  - destruct (key_eqb_spec k0 k) as [->|Hk].
    + split; [discriminate | intros Hn; exfalso; apply Hn; now left].
    + rewrite IH. split; [intros Hn [E|Hin]; auto | tauto].
Qed.

Lemma keys_set (d : dict K V) k v :
  keys (dict_set d k v) = if key_in k d then keys d else keys d ++ [k].
Proof.
  unfold key_in. induction d as [|[k0 v0] d IH]; simpl; auto.
  destruct (key_eqb_spec k0 k) as [->|Hk]; simpl; auto.
  rewrite IH. now destruct (dict_get d k).
Qed.

Lemma NoDup_keys_set (d : dict K V) k v :
  NoDup (keys d) -> NoDup (keys (dict_set d k v)).
Proof.
  intros Hd. rewrite keys_set. unfold key_in.
  destruct (dict_get d k) eqn:E; auto.
  apply dict_get_None_keys in E.
  apply NoDup_rev in Hd. rewrite <- (rev_involutive (keys d ++ [k])).
  apply NoDup_rev. rewrite rev_app_distr. simpl.
  constructor; auto. now rewrite <- in_rev.
Qed.

Lemma NoDup_keys_update (d other : dict K V) :
  NoDup (keys d) -> NoDup (keys (dict_update d other)).
Proof.
  unfold dict_update. revert d.
  induction other as [|[k v] other IH]; simpl; intros d Hd; auto.
  apply IH. now apply NoDup_keys_set.
Qed.

Lemma NoDup_keys_of_items (items : list (K * V)) :
  NoDup (keys (dict_of_items items)).
Proof. apply NoDup_keys_update. constructor. Qed.

(** After [d.update(other)] a key of [other] carries the value of
    [other]; the remaining keys keep the value they had in [d]. *)
Lemma dict_get_update (d other : dict K V) k :
  NoDup (keys other) ->
  dict_get (dict_update d other) k =
  match dict_get other k with
  | Some v => Some v
  | None => dict_get d k
  end.
Proof.
  unfold dict_update. revert d.
  induction other as [|[k0 v0] other IH]; simpl; intros d Hnd; auto.
  inversion Hnd as [|? ? Hnotin Hnd']; subst.
  rewrite IH by assumption.
  destruct (key_eqb_spec k0 k) as [->|Hk].
  - apply dict_get_None_keys in Hnotin. rewrite Hnotin.
    apply dict_get_set_same.
  - destruct (dict_get other k); auto.
    now apply dict_get_set_other.
Qed.

Lemma dict_get_In (d : dict K V) k v :
  dict_get d k = Some v -> In (k, v) d.
Proof.
  induction d as [|[k0 v0] d IH]; simpl; [discriminate|].
  destruct (key_eqb_spec k0 k) as [->|Hk].
  - intros [= ->]. now left.
  - intros Hg. right. auto.
Qed.

Lemma In_dict_get (d : dict K V) k v :
  NoDup (keys d) -> In (k, v) d -> dict_get d k = Some v.
Proof.
  induction d as [|[k0 v0] d IH]; simpl; [tauto|].
  intros Hnd [E|Hin].
  - inversion E; subst. now rewrite key_eqb_refl.
  - inversion Hnd as [|? ? Hnotin Hnd']; subst.
    destruct (key_eqb_spec k0 k) as [->|Hk]; auto.
    exfalso. apply Hnotin. change k with (fst (k, v)). now apply in_map.
Qed.
End DictFacts.

(* ===================================================================== *)
(** * The availability resolver *)
(* ===================================================================== *)

Section Resolver.
Variable http : MapTransport.
Variable rec_area_id : Z.

Let resolve (limit : nat) := _find_matching_resources limit http rec_area_id.

Lemma same_query_refl f : same_query f f.
Proof. now intros m. Qed.

Lemma same_query_set f m : same_query (set_mapId f m) f.
Proof. now intros m'. Qed.

Lemma same_query_trans f g h :
  same_query f g -> same_query g h -> same_query f h.
Proof. intros Hfg Hgh m. now rewrite Hfg. Qed.

Lemma api_request_inv {A B : Type} (loads : A -> B) (r : Response A) e :
  _api_request loads r = Raised e -> e = ConnectionError.
Proof.
  unfold _api_request. destruct (status_code r =? 200); congruence.
Qed.

Lemma resolve_unfold limit f :
  resolve (S limit) f =
  (results <- _api_request loads_map (http rec_area_id f) ;;
   visit_maps (resolve limit) (keys (mapLinkAvailabilities results))
              (resourceAvailabilities results) f).
Proof. reflexivity. Qed.

(** What one pass over the child maps keeps invariant, given that every
    descent does. *)
Lemma visit_maps_invariant (descend : SearchFilter -> _) :
  (forall f R f', descend f = Returned (R, f') ->
                  NoDup (keys R) /\ same_query f' f) ->
  forall ms acc f R f',
    NoDup (keys acc) ->
    visit_maps descend ms acc f = Returned (R, f') ->
    NoDup (keys R) /\ same_query f' f.
Proof.
  intros Hd. induction ms as [|m ms IH]; simpl; intros acc f R f' Hacc Hv.
  - inversion Hv; subst. split; [assumption | apply same_query_refl].
  - destruct (descend (set_mapId f m)) as [[child g]|e] eqn:E; simpl in Hv;
      [|discriminate].
    destruct (Hd _ _ _ E) as [Hchild Hg].
    destruct (IH _ _ _ _ (NoDup_keys_update acc child Hacc) Hv) as [HR Hf'].
    split; [assumption|].
    eapply same_query_trans; [exact Hf'|].
    eapply same_query_trans; [exact Hg | apply same_query_set].
Qed.

(** A mapping returned by the resolver holds each resource id once, and
    the filter it leaves behind asks the same query for another map. *)
Lemma resolve_invariant limit :
  forall f R f', resolve limit f = Returned (R, f') ->
                 NoDup (keys R) /\ same_query f' f.
Proof.
  induction limit as [|limit IH]; intros f R f' Hr.
  - discriminate.
  - rewrite resolve_unfold in Hr.
    destruct (_api_request loads_map (http rec_area_id f)) as [results|e] eqn:E;
      simpl in Hr; [|discriminate].
    eapply visit_maps_invariant; [exact IH | | exact Hr].
    unfold _api_request in E.
    destruct (status_code (http rec_area_id f) =? 200); [|discriminate].
    inversion E; subst. apply NoDup_keys_of_items.
Qed.

(** The lookup in the merged mapping, one child map at a time. *)
Lemma visit_maps_lookup limit r :
  forall ms acc f f0 R f',
    same_query f f0 ->
    visit_maps (resolve limit) ms acc f = Returned (R, f') ->
    dict_get R r =
    merged_lookup limit http rec_area_id f0 r ms (dict_get acc r).
Proof.
  unfold merged_lookup.
  induction ms as [|m ms IH]; simpl; intros acc f f0 R f' Hq Hv.
  - now inversion Hv.
  - rewrite <- (Hq m).
    fold (resolve limit (set_mapId f m)) in *.
    destruct (resolve limit (set_mapId f m)) as [[child g]|e] eqn:E;
      simpl in Hv; [|discriminate].
    destruct (resolve_invariant _ _ _ _ E) as [Hchild Hg].
    assert (Hq' : same_query g f0).
    { eapply same_query_trans; [exact Hg|].
      eapply same_query_trans; [apply same_query_set | exact Hq]. }
    rewrite (IH _ _ f0 _ _ Hq' Hv).
    now rewrite dict_get_update.
Qed.

(** The resolver raises nothing but a failed request or an exhausted
    stack. *)
Lemma visit_maps_raises (descend : SearchFilter -> _) :
  (forall f e, descend f = Raised e ->
               e = ConnectionError \/ e = RecursionError) ->
  forall ms acc f e,
    visit_maps descend ms acc f = Raised e ->
    e = ConnectionError \/ e = RecursionError.
Proof.
  intros Hd. induction ms as [|m ms IH]; simpl; intros acc f e Hv.
  - discriminate.
  - destruct (descend (set_mapId f m)) as [[child g]|e'] eqn:E; simpl in Hv.
    + eauto.
    + inversion Hv; subst. eauto.
Qed.

Lemma resolve_raises limit :
  forall f e, resolve limit f = Raised e ->
              e = ConnectionError \/ e = RecursionError.
Proof.
  induction limit as [|limit IH]; intros f e Hr.
  - inversion Hr. now right.
  - rewrite resolve_unfold in Hr.
    destruct (_api_request loads_map (http rec_area_id f)) as [results|e'] eqn:E;
      simpl in Hr.
    + eapply visit_maps_raises; eauto.
    + inversion Hr; subst. left. eapply api_request_inv; eauto.
Qed.

(** A pass over child maps none of which exhausts the stack does not
    exhaust it either. *)
Lemma visit_maps_within_limit limit f0 :
  forall ms acc f,
    same_query f f0 ->
    (forall m, In m ms ->
               resolve limit (set_mapId f0 m) <> Raised RecursionError) ->
    visit_maps (resolve limit) ms acc f <> Raised RecursionError.
Proof.
  induction ms as [|m ms IH]; simpl; intros acc f Hq Hms.
  - discriminate.
  - rewrite (Hq m).
    destruct (resolve limit (set_mapId f0 m)) as [[child g]|e] eqn:E; simpl.
    + apply IH; [|intros; apply Hms; now right].
      destruct (resolve_invariant _ _ _ _ E) as [_ Hg].
      eapply same_query_trans; [exact Hg | apply same_query_set].
    + intros Hv. inversion Hv; subst. apply (Hms m); [now left | exact E].
Qed.

(** A graph whose links strictly decrease a rank is resolved within
    [rank + 1] frames. *)
Lemma resolve_ranked (rank : Z -> nat) f0 :
  (forall m m', links http rec_area_id f0 m m' -> (rank m' < rank m)%nat) ->
  forall limit m,
    (rank m < limit)%nat ->
    resolve limit (set_mapId f0 m) <> Raised RecursionError.
Proof.
  intros Hrank. induction limit as [|limit IH]; intros m Hlt; [lia|].
  rewrite resolve_unfold.
  destruct (_api_request loads_map (http rec_area_id (set_mapId f0 m)))
    as [results|e] eqn:E; simpl.
  - apply visit_maps_within_limit with (f0 := f0).
    + apply same_query_set.
    + intros m' Hin. apply IH.
      assert (Hl : links http rec_area_id f0 m m').
      { unfold links, child_maps. now rewrite E. }
      specialize (Hrank _ _ Hl). lia.
  - intros Hr. inversion Hr; subst.
    apply api_request_inv in E. discriminate.
Qed.

(** A pass that descends into a map whose resolution does not return
    does not return. *)
Lemma visit_maps_stuck limit f0 m' :
  returns (resolve limit (set_mapId f0 m')) = false ->
  forall ms acc f,
    same_query f f0 -> In m' ms ->
    returns (visit_maps (resolve limit) ms acc f) = false.
Proof.
  intros Hstuck. induction ms as [|m ms IH]; simpl; intros acc f Hq Hin.
  - contradiction.
  - rewrite (Hq m).
    destruct (resolve limit (set_mapId f0 m)) as [[child g]|e] eqn:E; simpl;
      [|reflexivity].
    destruct Hin as [->|Hin].
    + rewrite E in Hstuck. discriminate.
    + apply IH; [|assumption].
      destruct (resolve_invariant _ _ _ _ E) as [_ Hg].
      eapply same_query_trans; [exact Hg | apply same_query_set].
Qed.

Lemma cycle_step (f0 : SearchFilter) m :
  clos_trans Z (links http rec_area_id f0) m m ->
  exists m', links http rec_area_id f0 m m' /\
             clos_trans Z (links http rec_area_id f0) m' m'.
Proof.
  intros Hc. apply clos_trans_t1n in Hc.
  inversion Hc as [? Hl|m' ? Hl Hrest]; subst.
  - exists m. split; [assumption | now apply t_step].
  - exists m'. split; [assumption|].
    apply clos_t1n_trans in Hrest.
    eapply t_trans; [exact Hrest | now apply t_step].
Qed.

(** From a map that lies on a cycle of links the resolver never
    returns, whatever the limit. *)
Lemma resolve_cycle f0 limit :
  forall m, clos_trans Z (links http rec_area_id f0) m m ->
            returns (resolve limit (set_mapId f0 m)) = false.
Proof.
  induction limit as [|limit IH]; intros m Hc; [reflexivity|].
  rewrite resolve_unfold.
  destruct (cycle_step _ _ Hc) as (m' & Hl & Hc').
  unfold links, child_maps in Hl.
  destruct (_api_request loads_map (http rec_area_id (set_mapId f0 m)))
    as [results|e] eqn:E; simpl; [|reflexivity].
  apply visit_maps_stuck with (f0 := f0) (m' := m'); auto.
  apply same_query_set.
Qed.

(** More frames do not change an outcome reached within the limit. *)
Lemma visit_maps_more (d1 d2 : SearchFilter -> _) :
  (forall f, d1 f <> Raised RecursionError -> d2 f = d1 f) ->
  forall ms acc f,
    visit_maps d1 ms acc f <> Raised RecursionError ->
    visit_maps d2 ms acc f = visit_maps d1 ms acc f.
Proof.
  intros Hd. induction ms as [|m ms IH]; simpl; intros acc f Hv; auto.
  destruct (d1 (set_mapId f m)) as [[child g]|e] eqn:E; simpl in *.
  - rewrite Hd by (rewrite E; discriminate). rewrite E. simpl. auto.
  - rewrite Hd by (rewrite E; exact Hv). now rewrite E.
Qed.

Lemma resolve_more limit :
  forall f, resolve limit f <> Raised RecursionError ->
            resolve (S limit) f = resolve limit f.
Proof.
  induction limit as [|limit IH]; intros f Hr.
  - now contradiction Hr.
  - rewrite (resolve_unfold (S limit)), (resolve_unfold limit) in *.
    destruct (_api_request loads_map (http rec_area_id f)) as [results|e];
      simpl in *; auto.
    now apply visit_maps_more.
Qed.

End Resolver.

(* ===================================================================== *)
(** * Merging of child maps (claim C1) *)
(* ===================================================================== *)

(** C1, as amended.  The mapping that [_find_matching_resources] returns
    holds every resource id once, and the value under a resource id is the
    one of the last visited child map that reports it; the direct answer of
    the queried map is kept only for ids that no child map reports. *)
Theorem find_matching_resources_last_wins :
  forall (limit : nat) (http : MapTransport) (rec_area_id : Z)
         (search_filter : SearchFilter) (found : Availabilities)
         (left_filter : SearchFilter),
    _find_matching_resources (S limit) http rec_area_id search_filter
    = Returned (found, left_filter) ->
    NoDup (keys found) /\
    exists results,
      _api_request loads_map (http rec_area_id search_filter) = Returned results /\
      forall r,
        dict_get found r =
        merged_lookup limit http rec_area_id search_filter r
                      (keys (mapLinkAvailabilities results))
                      (dict_get (resourceAvailabilities results) r).
Proof.
  intros limit http rec_area_id f R f' Hr.
  split.
  - now destruct (resolve_invariant _ _ _ _ _ _ Hr).
  - rewrite resolve_unfold in Hr.
    destruct (_api_request loads_map (http rec_area_id f)) as [results|e];
      simpl in Hr; [|discriminate].
    exists results. split; [reflexivity|].
    intros r. eapply visit_maps_lookup; [apply same_query_refl | exact Hr].
Qed.

(** On the overlapping sample, resource 1 ends with the availability of
    child map 11 and not with the one map 10 reported itself. *)
Lemma find_matching_resources_last_wins_witness :
  NoDup (keys [(1, [Sample.taken]); (2, [Sample.free])]) /\
  exists results,
    _api_request loads_map (Sample.overlap_http 1 Sample.filter_10)
    = Returned results /\
    forall r,
      dict_get [(1, [Sample.taken]); (2, [Sample.free])] r =
      merged_lookup 4 Sample.overlap_http 1 Sample.filter_10 r
                    (keys (mapLinkAvailabilities results))
                    (dict_get (resourceAvailabilities results) r).
Proof.
  apply (find_matching_resources_last_wins
           4 Sample.overlap_http 1 Sample.filter_10
           [(1, [Sample.taken]); (2, [Sample.free])]
           (set_mapId Sample.filter_10 11)).
  reflexivity.
Defined.

(** C1, as stated, fails: were the first occurrence to win, a resource id
    that the queried map reports itself would keep that availability in the
    result.  On the overlapping sample resource 1 is reported free by map 10
    and comes back taken, as its child map 11 has it. *)
Lemma first_occurrence_does_not_win :
  ~ (forall (limit : nat) (http : MapTransport) (rec_area_id : Z)
            (search_filter : SearchFilter) (found : Availabilities)
            (left_filter : SearchFilter) (results : MapResults)
            (r : Z) (v : list AvailabilityDetail),
        _find_matching_resources limit http rec_area_id search_filter
        = Returned (found, left_filter) ->
        _api_request loads_map (http rec_area_id search_filter)
        = Returned results ->
        dict_get (resourceAvailabilities results) r = Some v ->
        dict_get found r = Some v).
Proof.
  intros Hclaim.
  specialize (Hclaim 2%nat Sample.overlap_http 1 Sample.filter_10
                     [(1, [Sample.taken]); (2, [Sample.free])]
                     (set_mapId Sample.filter_10 11)
                     (loads_map (content (Sample.overlap_http 1 Sample.filter_10)))
                     1 [Sample.free]
                     eq_refl eq_refl eq_refl).
  discriminate Hclaim.
Qed.

(* ===================================================================== *)
(** * Termination of the descent (claim C2) *)
(* ===================================================================== *)

(** C2, as amended.  The descent ends at a map that links to no child map,
    and on every graph whose links decrease a rank it ends within
    [rank + 1] frames, with a mapping or with the [ConnectionError] of a
    failed request.  No visited map is remembered: from a map that can be
    reached again from itself the call never returns, it ends with a
    failed request or with the interpreter's [RecursionError]. *)
Theorem find_matching_resources_termination :
  forall (http : MapTransport) (rec_area_id : Z) (search_filter : SearchFilter),
    (forall results,
        _api_request loads_map (http rec_area_id search_filter)
        = Returned results ->
        keys (mapLinkAvailabilities results) = [] ->
        forall limit,
          _find_matching_resources (S limit) http rec_area_id search_filter
          = Returned (resourceAvailabilities results, search_filter))
    /\
    (forall rank : Z -> nat,
        (forall m m', links http rec_area_id search_filter m m' ->
                      (rank m' < rank m)%nat) ->
        forall m limit,
          (rank m < limit)%nat ->
          (exists found,
              _find_matching_resources limit http rec_area_id
                                       (set_mapId search_filter m)
              = Returned found)
          \/ _find_matching_resources limit http rec_area_id
                                      (set_mapId search_filter m)
             = Raised ConnectionError)
    /\
    (forall m,
        clos_trans Z (links http rec_area_id search_filter) m m ->
        forall limit,
          _find_matching_resources limit http rec_area_id
                                   (set_mapId search_filter m)
          = Raised ConnectionError
          \/ _find_matching_resources limit http rec_area_id
                                      (set_mapId search_filter m)
             = Raised RecursionError).
Proof.
  intros http rec_area_id f. repeat split.
  - intros results Hreq Hleaf limit.
    rewrite resolve_unfold, Hreq. simpl. now rewrite Hleaf.
  - intros rank Hrank m limit Hlt.
    pose proof (resolve_ranked http rec_area_id rank f Hrank limit m Hlt) as Hn.
    destruct (_find_matching_resources limit http rec_area_id (set_mapId f m))
      as [found|e] eqn:E.
    + left. now exists found.
    + right. destruct (resolve_raises _ _ _ _ _ E) as [->| ->];
        [reflexivity | contradiction].
  - intros m Hc limit.
    pose proof (resolve_cycle http rec_area_id f limit m Hc) as Hn.
    destruct (_find_matching_resources limit http rec_area_id (set_mapId f m))
      as [found|e] eqn:E; [discriminate|].
    destruct (resolve_raises _ _ _ _ _ E) as [->| ->]; auto.
Qed.

Lemma park_links_decrease :
  forall m m', links Sample.park_http 1 Sample.filter_10 m m' ->
               (Sample.park_rank m' < Sample.park_rank m)%nat.
Proof.
  intros m m'. unfold links, child_maps, Sample.park_rank, Sample.park_http. simpl.
  destruct (m =? 10) eqn:E10; simpl.
  - intros [<-|[]]. simpl. lia.
  - destruct (m =? 11); simpl; intros [].
Qed.

Lemma cyclic_links_back :
  clos_trans Z (links Sample.cyclic_http 1 Sample.filter_10) 10 10.
Proof.
  apply t_trans with (y := 11); apply t_step; unfold links; simpl; auto.
Qed.

(** The three parts on the samples: map 11 of the park is a leaf, the park
    is resolved from map 10 within two frames, and the cyclic sample ends
    in an exception from map 10. *)
Lemma find_matching_resources_termination_witness :
  _find_matching_resources 1 Sample.park_http 1 (set_mapId Sample.filter_10 11)
  = Returned ([(3, [Sample.free; Sample.free])], set_mapId Sample.filter_10 11)
  /\
  ((exists found,
       _find_matching_resources 2 Sample.park_http 1
                                (set_mapId Sample.filter_10 10)
       = Returned found)
   \/ _find_matching_resources 2 Sample.park_http 1
                               (set_mapId Sample.filter_10 10)
      = Raised ConnectionError)
  /\
  (_find_matching_resources 1000 Sample.cyclic_http 1
                            (set_mapId Sample.filter_10 10)
   = Raised ConnectionError
   \/ _find_matching_resources 1000 Sample.cyclic_http 1
                               (set_mapId Sample.filter_10 10)
      = Raised RecursionError).
Proof.
  split; [|split].
  - destruct (find_matching_resources_termination
                Sample.park_http 1 (set_mapId Sample.filter_10 11))
      as [Hleaf _].
    exact (Hleaf _ eq_refl eq_refl 0%nat).
  - destruct (find_matching_resources_termination
                Sample.park_http 1 Sample.filter_10) as [_ [Hrank _]].
    apply (Hrank Sample.park_rank park_links_decrease 10 2%nat).
    unfold Sample.park_rank. simpl. lia.
  - destruct (find_matching_resources_termination
                Sample.cyclic_http 1 Sample.filter_10) as [_ [_ Hcycle]].
    exact (Hcycle 10 cyclic_links_back 1000%nat).
Defined.

Lemma cyclic_sample_exhausts_stack :
  forall limit search_filter,
    _find_matching_resources limit Sample.cyclic_http 1 search_filter
    = Raised RecursionError.
Proof.
  induction limit as [|limit IH]; intros f; [reflexivity|].
  rewrite resolve_unfold. unfold Sample.cyclic_http at 1.
  destruct (mapId f =? 10); simpl; now rewrite IH.
Qed.

(** C2, as stated, fails: the resolver holds no visited set and has no
    exception for a cycle.  On the sample in which map 10 links to map 11
    and map 11 back to map 10, no limit lets the call end otherwise than by
    exhausting the interpreter's stack. *)
Lemma cycle_is_not_detected :
  ~ (exists limit,
        _find_matching_resources limit Sample.cyclic_http 1 Sample.filter_10
        <> Raised RecursionError).
Proof.
  intros [limit Hends]. apply Hends. apply cyclic_sample_exhausts_stack.
Qed.

(* ===================================================================== *)
(** * Reported sites (claim C3) *)
(* ===================================================================== *)

Lemma list_index_0 {A : Type} (l : list A) :
  list_index l 0 = match l with
                   | x :: _ => Returned x
                   | [] => Raised IndexError
                   end.
Proof.
  destruct l as [|x l]; [reflexivity|].
  unfold list_index. cbn [length].
  replace (0 <? 0) with false by reflexivity.
  replace ((0 <=? 0) && (0 <? Z.of_nat (S (length l)))) with true.
  - reflexivity.
  - symmetry. apply andb_true_iff. split; [reflexivity|].
    apply Z.ltb_lt. lia.
Qed.

Lemma available_loop_spec :
  forall items acc sites,
    available_loop items acc = Returned sites ->
    sites = acc ++ keys (filter (fun item => first_entry_available (snd item))
                                items).
Proof.
  induction items as [|[r details] items IH]; simpl; intros acc sites Hl.
  - inversion Hl. now rewrite app_nil_r.
  - rewrite list_index_0 in Hl.
    destruct details as [|first rest]; simpl in Hl; [discriminate|].
    simpl. destruct (availability first =? 0).
    + apply IH in Hl. rewrite Hl, <- app_assoc. reflexivity.
    + now apply IH in Hl.
Qed.

(** C3, as amended.  [list_site_availability] reports a resource of the
    resolver's mapping exactly when the first entry of its availability
    list has [availability == 0]; the entries after the first are not
    read. *)
Theorem list_site_availability_first_entry :
  forall (limit : nat) (http : MapTransport) (campground : CampgroundFacility.t)
         (start_date end_date : date) (equipment_category : json)
         (resources : Availabilities) (left_filter : SearchFilter)
         (sites : list Z),
    _find_matching_resources limit http
      (CampgroundFacility.recreation_area_id campground)
      (initial_filter campground start_date end_date equipment_category)
    = Returned (resources, left_filter) ->
    list_site_availability limit http campground start_date end_date
                           equipment_category
    = Returned sites ->
    forall r,
      In r sites <->
      exists details,
        dict_get resources r = Some details /\
        first_entry_available details = true.
Proof.
  intros limit http campground start_date end_date equipment_category
         resources left_filter sites Hres Hsites r.
  unfold list_site_availability in Hsites. rewrite Hres in Hsites.
  simpl in Hsites. apply available_loop_spec in Hsites. simpl in Hsites.
  destruct (resolve_invariant _ _ _ _ _ _ Hres) as [Hnodup _].
  subst sites. unfold keys. rewrite in_map_iff. split.
  - intros ([r' details] & <- & Hin). apply filter_In in Hin.
    destruct Hin as [Hin Hfirst]. exists details. split; [|assumption].
    now apply In_dict_get.
  - intros (details & Hget & Hfirst). exists (r, details). split; [reflexivity|].
    apply filter_In. split; [|assumption]. now apply dict_get_In.
Qed.

(** On the sample whose resource 1 is free, then taken, and whose
    resource 2 is taken, then free: resource 1 is reported. *)
Lemma list_site_availability_first_entry_witness :
  In 1 [1] <->
  exists details,
    dict_get [(1, [Sample.free; Sample.taken]); (2, [Sample.taken; Sample.free])] 1
    = Some details /\
    first_entry_available details = true.
Proof.
  apply (list_site_availability_first_entry
           3 Sample.half_free_http Sample.campground_10
           Sample.july_4 Sample.july_6 (JInt 7)
           [(1, [Sample.free; Sample.taken]); (2, [Sample.taken; Sample.free])]
           (initial_filter Sample.campground_10 Sample.july_4 Sample.july_6
                           (JInt 7))
           [1]); reflexivity.
Defined.

(** C3, as stated, fails: a resource would be reported exactly when every
    day of its list has status 0.  On that sample resource 1 is reported
    although its second day is taken. *)
Lemma unavailable_day_is_not_excluded :
  ~ (forall (limit : nat) (http : MapTransport)
            (campground : CampgroundFacility.t) (start_date end_date : date)
            (equipment_category : json) (resources : Availabilities)
            (left_filter : SearchFilter) (sites : list Z)
            (r : Z) (details : list AvailabilityDetail),
        _find_matching_resources limit http
          (CampgroundFacility.recreation_area_id campground)
          (initial_filter campground start_date end_date equipment_category)
        = Returned (resources, left_filter) ->
        list_site_availability limit http campground start_date end_date
                               equipment_category
        = Returned sites ->
        dict_get resources r = Some details ->
        (In r sites <-> forall d, In d details -> availability d = 0)).
Proof.
  intros Hclaim.
  specialize (Hclaim 3%nat Sample.half_free_http Sample.campground_10
                Sample.july_4 Sample.july_6 (JInt 7)
                [(1, [Sample.free; Sample.taken]);
                 (2, [Sample.taken; Sample.free])]
                (initial_filter Sample.campground_10 Sample.july_4
                                Sample.july_6 (JInt 7))
                [1] 1 [Sample.free; Sample.taken]
                eq_refl eq_refl eq_refl).
  destruct Hclaim as [Hall _].
  specialize (Hall (or_introl eq_refl) Sample.taken (or_intror (or_introl eq_refl))).
  discriminate Hall.
Qed.

(* ===================================================================== *)
(** * Nested keys (claim C5) *)
(* ===================================================================== *)

Lemma absent_or_misshapen_getitem element k :
  absent_or_misshapen element k = true ->
  getitem element k = Raised KeyError \/ getitem element k = Raised TypeError.
Proof.
  destruct element as [| b | z | s | l | d], k as [s' | i]; simpl;
    try discriminate; auto.
  unfold key_in. destruct (dict_get d s'); [discriminate | auto].
Qed.

Lemma fetch_loop_not_found :
  forall before element reached k after,
    follow element before = Some reached ->
    absent_or_misshapen reached k = true ->
    fetch_loop element (before ++ k :: after) = Returned JNull.
Proof.
  induction before as [|b before IH]; simpl; intros element reached k after Hf Hk.
  - inversion Hf; subst.
    destruct (absent_or_misshapen_getitem _ _ Hk) as [-> | ->]; reflexivity.
  - destruct (getitem element b) as [next|e]; [|discriminate]. eauto.
Qed.

(** C5, as amended.  For a root that is neither a dictionary nor a list,
    and for an empty key path, [fetch_nested_key] raises [AttributeError].
    For a dictionary or list root it returns [None], and does not raise, as
    soon as the path meets a segment that is absent or of the wrong shape:
    a key missing from a mapping, a key applied to a sequence that is not an
    index, or any key applied to a scalar that cannot be subscripted. *)
Theorem fetch_nested_key_not_found :
  forall (obj : json) (path : list key),
    (is_dict_or_list obj = false \/ path = [] ->
     fetch_nested_key obj path = Raised AttributeError)
    /\
    (is_dict_or_list obj = true ->
     forall before k after reached,
       path = before ++ k :: after ->
       follow obj before = Some reached ->
       absent_or_misshapen reached k = true ->
       fetch_nested_key obj path = Returned JNull).
Proof.
  intros obj path. split.
  - unfold fetch_nested_key. intros [Hroot | ->].
    + now rewrite Hroot.
    + now destruct (is_dict_or_list obj).
  - intros Hroot before k after reached -> Hf Hk.
    unfold fetch_nested_key. rewrite Hroot. simpl.
    replace (length (before ++ k :: after) =? 0)%nat with false.
    + eapply fetch_loop_not_found; eauto.
    + symmetry. apply Nat.eqb_neq. rewrite length_app. simpl. lia.
Qed.

(** A number as root raises; in [{"a": [{"b": 1}]}] the path
    ["a", 0, "c"] ends on a missing key and gives [None]. *)
Lemma fetch_nested_key_not_found_witness :
  fetch_nested_key (JInt 3) [KStr "a"] = Raised AttributeError /\
  fetch_nested_key Sample.nested [KStr "a"; KInt 0; KStr "c"] = Returned JNull.
Proof.
  split.
  - apply (fetch_nested_key_not_found (JInt 3) [KStr "a"]). left. reflexivity.
  - apply (fetch_nested_key_not_found
             Sample.nested [KStr "a"; KInt 0; KStr "c"])
      with (before := [KStr "a"; KInt 0]) (k := KStr "c") (after := [])
           (reached := JDict [("b"%string, JInt 1)]);
      reflexivity.
Defined.

(** The handler names [KeyError] and [TypeError] only: an index past the
    end of a list escapes as [IndexError]. *)
Example fetch_nested_key_index_out_of_range :
  fetch_nested_key (JList [JInt 1]) [KInt 5] = Raised IndexError.
Proof. reflexivity. Qed.

(** C5, as stated, fails: the lookup would return for every structure and
    every key path.  A root that is a number raises [AttributeError]. *)
Lemma fetch_nested_key_raises :
  ~ (forall (obj : json) (path : list key),
        exists v, fetch_nested_key obj path = Returned v).
Proof.
  intros Hclaim. destruct (Hclaim (JInt 3) [KStr "a"]) as [v Hv].
  discriminate Hv.
Qed.

(* ===================================================================== *)
(** * The facility filter (claims C6 and C9) *)
(* ===================================================================== *)

(** Building a facility from a dictionary entry raises nothing: the name is
    looked up along string keys only. *)
Lemma build_facility_returns rec_area_id facil :
  build_facility rec_area_id facil = Returned (normalize rec_area_id facil).
Proof.
  unfold normalize, build_facility, fetch_nested_key. simpl.
  destruct (dict_get facil "resourceLocationLocalizedValues"%string) as [v|]; simpl;
    [|reflexivity].
  destruct v as [| b | z | s | l | d]; simpl; try reflexivity.
  destruct (dict_get d "en-US"%string); reflexivity.
Qed.

Lemma filter_loop_step rec_area_id facil rest log acc :
  filter_loop rec_area_id (facil :: rest) log acc =
  match normalize rec_area_id facil with
  | None => (log ++ invalid_facility_log facil, Raised ProviderSearchError)
  | Some facility =>
      filter_loop rec_area_id rest log
                  (if kept facility then acc ++ [facility] else acc)
  end.
Proof.
  cbn [filter_loop]. rewrite build_facility_returns.
  destruct (normalize rec_area_id facil) as [facility|]; [|reflexivity].
  unfold kept. destruct (no_categories facility); simpl; [reflexivity|].
  destruct (is_reservable facility); reflexivity.
Qed.

Lemma filter_loop_valid rec_area_id :
  forall facilities normalized log acc,
    Forall2 (fun facil f => normalize rec_area_id facil = Some f)
            facilities normalized ->
    filter_loop rec_area_id facilities log acc
    = (log, Returned (acc ++ filter kept normalized)).
Proof.
  induction facilities as [|facil rest IH]; intros normalized log acc Hall;
    inversion Hall as [|? f ? fs Hf Hrest]; subst.
  - simpl. now rewrite app_nil_r.
  - rewrite filter_loop_step, Hf, (IH _ _ _ Hrest). simpl.
    destruct (kept f); [now rewrite <- app_assoc | reflexivity].
Qed.

Lemma filter_loop_invalid rec_area_id facil after :
  normalize rec_area_id facil = None ->
  forall before log acc,
    Forall (fun earlier => normalize rec_area_id earlier <> None) before ->
    filter_loop rec_area_id (before ++ facil :: after) log acc
    = (log ++ invalid_facility_log facil, Raised ProviderSearchError).
Proof.
  intros Hbad. induction before as [|b before IH]; intros log acc Hvalid.
  - simpl app. now rewrite filter_loop_step, Hbad.
  - inversion Hvalid as [|? ? Hb Hrest]; subst.
    simpl app. rewrite filter_loop_step.
    destruct (normalize rec_area_id b); [now apply IH | contradiction].
Qed.

Lemma filter_loop_returned rec_area_id :
  forall facilities log acc out,
    snd (filter_loop rec_area_id facilities log acc) = Returned out ->
    exists normalized,
      Forall2 (fun facil f => normalize rec_area_id facil = Some f)
              facilities normalized /\
      out = acc ++ filter kept normalized.
Proof.
  induction facilities as [|facil rest IH]; intros log acc out Hret.
  - exists []. split; [constructor|]. simpl in *. inversion Hret.
    now rewrite app_nil_r.
  - rewrite filter_loop_step in Hret.
    destruct (normalize rec_area_id facil) as [f|] eqn:Hf; [|discriminate].
    destruct (IH _ _ _ Hret) as (normalized & Hall & ->).
    exists (f :: normalized). split; [now constructor|]. simpl.
    destruct (kept f); [now rewrite <- app_assoc | reflexivity].
Qed.

Lemma existsb_eqb_In c l : existsb (Z.eqb c) l = true -> In c l.
Proof.
  intros He. apply existsb_exists in He. destruct He as (x & Hin & Hx).
  apply Z.eqb_eq in Hx. now subst.
Qed.

Lemma kept_intersects facility :
  kept facility = true -> intersects_bookable facility.
Proof.
  unfold kept, is_reservable, has_category, intersects_bookable.
  intros Hk. apply andb_true_iff in Hk. destruct Hk as [_ Hr].
  destruct (ResourceCategories facility) as [categories|]; [|discriminate].
  apply orb_true_iff in Hr. destruct Hr as [Hc|Hg].
  - exists categories, CAMPSITE. repeat split; simpl; auto.
    now apply existsb_eqb_In.
  - exists categories, GROUP_CAMP. repeat split; simpl; auto.
    now apply existsb_eqb_In.
Qed.

Lemma intersects_kept facility :
  intersects_bookable facility -> kept facility = true.
Proof.
  unfold kept, is_reservable, has_category, no_categories, intersects_bookable.
  intros (categories & c & -> & Hin & Hc).
  destruct categories as [|c0 rest]; [contradiction|]. simpl negb.
  assert (Hex : forall x, In x (c0 :: rest) ->
                          existsb (Z.eqb x) (c0 :: rest) = true).
  { intros x Hx. apply existsb_exists. exists x. split; [assumption|].
    apply Z.eqb_refl. }
  destruct Hc as [<-|[<-|[]]]; rewrite (Hex _ Hin); simpl;
    [reflexivity | apply orb_true_r].
Qed.

Lemma lacks_name_invalid rec_area_id facil :
  lacks_name facil -> normalize rec_area_id facil = None.
Proof.
  unfold lacks_name, normalize, build_facility. intros ->. simpl.
  unfold ResourceLocation_init.
  destruct (as_optional_int (dict_get_or_none facil "mapId")),
           (as_optional_int_list (dict_get_or_none facil "resourceCategoryIds")),
           (as_optional_int (dict_get_or_none facil "resourceLocationId"));
    reflexivity.
Qed.

(** C6, as amended.  An entry that lacks its required field, the localized
    name, is fatal to the call: at the first such entry, the entries before
    it being well typed, [_filter_facilities_responses] logs the error with
    the entry and raises [ProviderSearchError]; the facilities built from
    the entries before it are not returned and the entries after it are not
    read. *)
Theorem filter_facilities_invalid_entry_is_fatal :
  forall (rec_area_id : Z) (before after : list (dict string json))
         (facil : dict string json),
    Forall (fun earlier => normalize rec_area_id earlier <> None) before ->
    lacks_name facil ->
    _filter_facilities_responses rec_area_id (before ++ facil :: after)
    = (invalid_facility_log facil, Raised ProviderSearchError).
Proof.
  intros rec_area_id before after facil Hvalid Hbad.
  unfold _filter_facilities_responses.
  apply (lacks_name_invalid rec_area_id) in Hbad.
  now rewrite (filter_loop_invalid _ _ _ Hbad before [] [] Hvalid).
Qed.

(** The nameless entry between two valid ones. *)
Lemma filter_facilities_invalid_entry_is_fatal_witness :
  _filter_facilities_responses
    1 ([Sample.lake_entry] ++ Sample.nameless_entry :: [Sample.group_entry])
  = (invalid_facility_log Sample.nameless_entry, Raised ProviderSearchError).
Proof.
  apply (filter_facilities_invalid_entry_is_fatal
           1 [Sample.lake_entry] [Sample.group_entry] Sample.nameless_entry).
  - constructor; [discriminate | constructor].
  - reflexivity.
Defined.

(** C6, as stated, fails: the call would return with the facilities of the
    valid entries.  With the nameless entry in the listing nothing is
    returned. *)
Lemma invalid_entry_is_not_skipped :
  ~ (forall (rec_area_id : Z) (facilities : list (dict string json)),
        exists out,
          snd (_filter_facilities_responses rec_area_id facilities)
          = Returned out).
Proof.
  intros Hclaim.
  destruct (Hclaim 1 [Sample.lake_entry; Sample.nameless_entry;
                      Sample.group_entry]) as [out Hout].
  discriminate Hout.
Qed.

(** C9.  Whatever the listing, every facility that
    [_filter_facilities_responses] returns has a category set that meets
    the bookable categories, campsite and group camp: the returned list is
    the list of the validated entries without those whose set is absent,
    empty or disjoint from the two. *)
Theorem filter_facilities_keeps_bookable_only :
  forall (rec_area_id : Z) (facilities : list (dict string json))
         (out : list ResourceLocation),
    snd (_filter_facilities_responses rec_area_id facilities) = Returned out ->
    Forall intersects_bookable out /\
    exists normalized,
      Forall2 (fun facil f => normalize rec_area_id facil = Some f)
              facilities normalized /\
      out = filter kept normalized /\
      forall f, In f normalized -> ~ intersects_bookable f -> ~ In f out.
Proof.
  intros rec_area_id facilities out Hret.
  destruct (filter_loop_returned _ _ _ _ _ Hret) as (normalized & Hall & Hout).
  simpl in Hout. subst out.
  assert (Hbook : Forall intersects_bookable (filter kept normalized)).
  { apply Forall_forall. intros f Hin. apply filter_In in Hin.
    apply kept_intersects. tauto. }
  split; [assumption|].
  exists normalized. repeat split; auto.
  intros f _ Hnot Hin. apply Hnot.
  rewrite Forall_forall in Hbook. auto.
Qed.

(** A listing with a campsite, a picnic shelter, a category-less
    trailhead and a group field gives the campsite and the group field. *)
Lemma filter_facilities_keeps_bookable_only_witness :
  Forall intersects_bookable [Sample.lake; Sample.group_field] /\
  exists normalized,
    Forall2 (fun facil f => normalize 1 facil = Some f)
            [Sample.lake_entry; Sample.picnic_entry; Sample.bare_entry;
             Sample.group_entry]
            normalized /\
    [Sample.lake; Sample.group_field] = filter kept normalized /\
    forall f, In f normalized -> ~ intersects_bookable f ->
              ~ In f [Sample.lake; Sample.group_field].
Proof.
  apply (filter_facilities_keeps_bookable_only
           1 [Sample.lake_entry; Sample.picnic_entry; Sample.bare_entry;
              Sample.group_entry]).
  reflexivity.
Defined.

(* ===================================================================== *)
(** * The equipment matcher (claims C4 and C10) *)
(* ===================================================================== *)

(** A category whose name starts with the descriptor's name is passed
    over: the test [find > 0] holds only for an occurrence after the first
    character. *)
Lemma match_category_at_start name length eq_name category :
  find eq_name name = 0 -> match_category name length eq_name category = None.
Proof. unfold match_category. now intros ->. Qed.

Lemma match_category_found name length eq_name category :
  find eq_name name > 0 ->
  match_category name length eq_name category =
  if (length =? 0) || ((length >? 0) && (length <=? max_size category))
  then Some (id category) else None.
Proof.
  unfold match_category. intros Hpos.
  replace (find eq_name name >? 0) with true
    by (symmetry; apply Z.gtb_lt; lia).
  destruct (length =? 0); [reflexivity|]. simpl.
  now destruct ((length >? 0) && (length <=? max_size category)).
Qed.

Lemma match_category_inv name length eq_name category cid :
  match_category name length eq_name category = Some cid ->
  find eq_name name > 0 /\ cid = id category /\
  (length = 0 \/ 0 < length <= max_size category).
Proof.
  unfold match_category.
  destruct (find eq_name name >? 0) eqn:Hf; [|discriminate].
  apply Z.gtb_lt in Hf.
  destruct (length =? 0) eqn:H0.
  - apply Z.eqb_eq in H0. intros [= <-]. repeat split; auto; lia.
  - destruct ((length >? 0) && (length <=? max_size category)) eqn:Hl;
      [|discriminate].
    apply andb_true_iff in Hl. destruct Hl as [Hpos Hle].
    apply Z.gtb_lt in Hpos. apply Z.leb_le in Hle.
    intros [= <-]. repeat split; auto; lia.
Qed.

(** C4 on the scenario.  The listing decodes to the three categories with
    sizes 1, 20 and 1000, and the descriptor ("rv/trailer", 25) is answered
    with the error log and [exit(1)]: both trailer names start with the
    descriptor's name, at index 0, which the test [find > 0] rejects.  The
    descriptor ("trailer", 25), found at index 3, gets id 7. *)
Theorem get_equipment_category_scenario :
  list_equipment_categories Sample.equipment_http 1
  = Returned Sample.equipment_listing
  /\ find "rv/trailer over 40'" "rv/trailer" = 0
  /\ _get_equipment_category Sample.equipment_http [1]
                             [("rv/trailer"%string, 25)]
     = (no_category_log, Raised (SystemExit 1))
  /\ _get_equipment_category Sample.equipment_http [1]
                             [("trailer"%string, 25)]
     = ([], Returned (JInt 7)).
Proof. repeat split. Qed.

(** C10 at a name that starts the category's name.  "rv/trailer" is
    contained in "rv/trailer over 40'", at index 0, and the category's
    [max_size] is 1000; yet the category accepts the descriptor neither
    with length 0 nor with length 25, and the method leaves through
    [exit(1)]: the test [find > 0] holds only for an occurrence after the
    first character.  Found at index 3, "trailer" is accepted with both
    lengths. *)
Theorem match_category_name_at_index_zero :
  contains "rv/trailer" "rv/trailer over 40'" = true
  /\ find "rv/trailer over 40'" "rv/trailer" = 0
  /\ match_category "rv/trailer" 0 "rv/trailer over 40'"
                    {| id := JInt 7; max_size := 1000 |} = None
  /\ match_category "rv/trailer" 25 "rv/trailer over 40'"
                    {| id := JInt 7; max_size := 1000 |} = None
  /\ _get_equipment_category Sample.equipment_http [1]
                             [("rv/trailer"%string, 0)]
     = (no_category_log, Raised (SystemExit 1))
  /\ match_category "trailer" 0 "rv/trailer over 40'"
                    {| id := JInt 7; max_size := 1000 |} = Some (JInt 7)
  /\ match_category "trailer" 25 "rv/trailer over 40'"
                    {| id := JInt 7; max_size := 1000 |} = Some (JInt 7).
Proof. repeat split. Qed.

(** X22.  One turn of the matcher's loop is monotone in the length: a
    category that accepts the descriptor [(name, L)] accepts [(name, L')]
    for every length [0 <= L' <= L]. *)
Theorem match_category_monotone_in_length :
  forall (name eq_name : string) (category : Category) (L L' : Z),
    match_category name L eq_name category = Some (id category) ->
    0 <= L' <= L ->
    match_category name L' eq_name category = Some (id category).
Proof.
  intros name eq_name category L L' Hm Hle.
  apply match_category_inv in Hm. destruct Hm as (Hfound & _ & Hlen).
  rewrite match_category_found by assumption.
  destruct (L' =? 0) eqn:H0; [reflexivity|]. apply Z.eqb_neq in H0.
  replace ((L' >? 0) && (L' <=? max_size category)) with true;
    [reflexivity|].
  symmetry. apply andb_true_iff. split.
  - apply Z.gtb_lt. lia.
  - apply Z.leb_le. lia.
Qed.

(** The up-to-20 trailer category accepts ("trailer", 20), hence
    ("trailer", 12). *)
Lemma match_category_monotone_in_length_witness :
  match_category "trailer" 12 "rv/trailer up to 20'"
                 {| id := JInt 6; max_size := 20 |} = Some (JInt 6).
Proof.
  apply (match_category_monotone_in_length
           "trailer" "rv/trailer up to 20'"
           {| id := JInt 6; max_size := 20 |} 20 12).
  - reflexivity.
  - lia.
Defined.

(* ===================================================================== *)
(** * The search over campgrounds (claims C7 and C8) *)
(* ===================================================================== *)

Lemma bind_Returned {A B : Type} (c : outcome A) (k : A -> outcome B) b :
  bind c k = Returned b -> exists a, c = Returned a /\ k a = Returned b.
Proof. destruct c as [a|e]; simpl; [eauto | discriminate]. Qed.

Ltac bind_inv H :=
  let a := fresh "a" in
  let Ha := fresh "Ha" in
  apply bind_Returned in H; destruct H as (a & Ha & H).

Section Search.
Variable limit : nat.
Variable http : MapTransport.
Variable get_site_details : SiteDetails.






(** What the campgrounds before the last one produced is dropped: the
    result is the one of a search over the last campground alone. *)
Lemma campgrounds_loop_last self last :
  forall before acc out,
    campgrounds_loop limit http get_site_details self (before ++ [last]) acc
    = Returned out ->
    campgrounds_loop limit http get_site_details self [last] None
    = Returned out.
Proof.
  induction before as [|campground before IH]; intros acc out Hl.
  - simpl app in Hl. cbn [campgrounds_loop] in *.
    do 3 bind_inv Hl. rewrite Ha. simpl. rewrite Ha0. simpl.
    rewrite Ha1. simpl. exact Hl.
  - simpl app in Hl. cbn [campgrounds_loop] in Hl. do 3 bind_inv Hl.
    eapply IH. exact Hl.
Qed.
End Search.






(** C8 on two campgrounds.  Campground 10 alone gives three records, one
    per available site; searched before campground 20, which has no site,
    it gives none: the list is emptied at every campground, and the search
    returns what the last one produced. *)
Theorem get_all_campsites_scenario :
  get_all_campsites 5 Sample.park_http Sample.site_details
    (Sample.search [Sample.campground_10] Sample.weekend false)
  = Returned [Sample.record_10 Sample.weekend; Sample.record_10 Sample.weekend;
              Sample.record_10 Sample.weekend]
  /\
  get_all_campsites 5 Sample.park_http Sample.site_details
    (Sample.search [Sample.campground_10; Sample.campground_20]
                   Sample.weekend false)
  = Returned []
  /\
  get_all_campsites 5 Sample.park_http Sample.site_details
    (Sample.search [] Sample.weekend false)
  = Raised UnboundLocalError.
Proof. repeat split. Qed.

(* ===================================================================== *)
(** * Further properties: text *)
(* ===================================================================== *)

Lemma lower_char_not_upper c : is_upper (lower_char c) = false.
Proof.
  destruct c as [[] [] [] [] [] [] [] []]; reflexivity.
Qed.

Lemma lower_char_idempotent c : lower_char (lower_char c) = lower_char c.
Proof.
  unfold lower_char at 1. now rewrite lower_char_not_upper.
Qed.

Lemma lower_idempotent s : lower (lower s) = lower s.
Proof.
  induction s as [|c s IH]; simpl; [reflexivity|].
  now rewrite lower_char_idempotent, IH.
Qed.

Lemma has_upper_lower s : has_upper (lower s) = false.
Proof.
  induction s as [|c s IH]; simpl; [reflexivity|].
  now rewrite lower_char_not_upper, IH.
Qed.

Lemma prefix_has_upper sub :
  forall s, prefix sub s = true -> has_upper sub = true -> has_upper s = true.
Proof.
  induction sub as [|c sub IH]; intros s Hp Hu; [discriminate|].
  destruct s as [|c' s]; [discriminate|]. simpl in Hp.
  destruct (ascii_dec c c') as [<-|]; [|discriminate].
  simpl in *. destruct (is_upper c); [reflexivity|]. simpl in *. eauto.
Qed.

(** A text with an upper-case letter occurs in no text without one. *)
Lemma find_upper_in_lower sub :
  has_upper sub = true ->
  forall s i, has_upper s = false -> find_from i s sub = -1.
Proof.
  intros Hu. induction s as [|c s IH]; intros i Hs.
  - cbn [find_from]. destruct (prefix sub "") eqn:Hp; [|reflexivity].
    now rewrite (prefix_has_upper _ _ Hp Hu) in Hs.
  - cbn [find_from]. destruct (prefix sub (String c s)) eqn:Hp.
    + now rewrite (prefix_has_upper _ _ Hp Hu) in Hs.
    + simpl in Hs. apply orb_false_iff in Hs. destruct Hs as [_ Hs]. auto.
Qed.

Lemma contains_upper_in_lower sub s :
  has_upper sub = true -> contains sub (lower s) = false.
Proof.
  intros Hu. unfold contains, find.
  now rewrite (find_upper_in_lower _ Hu _ 0 (has_upper_lower s)).
Qed.

Lemma find_empty s : find s "" = 0.
Proof. unfold find. now destruct s. Qed.

(* ===================================================================== *)
(** * Further properties: fetch_nested_key *)
(* ===================================================================== *)

Lemma list_index_raises {A : Type} (l : list A) i e :
  list_index l i = Raised e -> e = IndexError.
Proof.
  unfold list_index.
  destruct ((0 <=? (if i <? 0 then i + Z.of_nat (length l) else i))
            && ((if i <? 0 then i + Z.of_nat (length l) else i)
                <? Z.of_nat (length l))).
  - destruct (nth_error l _); congruence.
  - congruence.
Qed.

Lemma getitem_raises element k e :
  getitem element k = Raised e ->
  e = KeyError \/ e = TypeError \/ (e = IndexError /\ exists i, k = KInt i).
Proof.
  destruct element as [| b | z | s | l | d], k as [s' | i]; simpl;
    try (intros [= <-]; auto; fail).
  - intros Hl. apply list_index_raises in Hl. right. right. eauto.
  - intros Hl. apply list_index_raises in Hl. right. right. eauto.
  - destruct (dict_get d s'); intros [= <-]. auto.
Qed.

Lemma fetch_loop_follow :
  forall path element v,
    follow element path = Some v -> fetch_loop element path = Returned v.
Proof.
  induction path as [|k path IH]; simpl; intros element v Hf.
  - now inversion Hf.
  - destruct (getitem element k) as [next|e]; [auto | discriminate].
Qed.

Lemma fetch_loop_raises :
  forall path element e,
    fetch_loop element path = Raised e ->
    e = IndexError /\
    exists before i after reached,
      path = before ++ KInt i :: after /\
      follow element before = Some reached /\
      getitem reached (KInt i) = Raised IndexError.
Proof.
  induction path as [|k path IH]; simpl; intros element e Hl; [discriminate|].
  destruct (getitem element k) as [next|x] eqn:Hg.
  - destruct (IH _ _ Hl) as (-> & before & i & after & reached & -> & Hf & Hi).
    split; [reflexivity|].
    exists (k :: before), i, after, reached. simpl. rewrite Hg. auto.
  - destruct (getitem_raises _ _ _ Hg) as [->|[->|(-> & i & ->)]];
      try discriminate.
    inversion Hl; subst. split; [reflexivity|].
    exists [], i, path, element. auto.
Qed.

(** X1.  When every segment of a non-empty path can be subscripted,
    starting from a dictionary or a list, [fetch_nested_key] returns the
    element the path leads to. *)
Theorem fetch_nested_key_found :
  forall (obj : json) (path : list key) (v : json),
    is_dict_or_list obj = true ->
    path <> [] ->
    follow obj path = Some v ->
    fetch_nested_key obj path = Returned v.
Proof.
  intros obj path v Hroot Hpath Hf. unfold fetch_nested_key.
  rewrite Hroot. simpl.
  destruct path as [|k path]; [contradiction|].
  now apply fetch_loop_follow.
Qed.

(** The example of the docstring: [{"foo": {"bar": "baz"}}] at
    ["foo", "bar"]. *)
Lemma fetch_nested_key_found_witness :
  fetch_nested_key
    (JDict [("foo"%string, JDict [("bar"%string, JStr "baz")])])
    [KStr "foo"; KStr "bar"]
  = Returned (JStr "baz").
Proof.
  apply fetch_nested_key_found; [reflexivity | discriminate | reflexivity].
Defined.

(** X2.  [fetch_nested_key] raises [AttributeError], for a root that is
    neither dictionary nor list or for an empty path, or [IndexError], when
    the path reaches a list or a string with an integer index outside it;
    it raises nothing else, in particular neither [KeyError] nor
    [TypeError]. *)
Theorem fetch_nested_key_raises_only :
  forall (obj : json) (path : list key) (e : exn),
    fetch_nested_key obj path = Raised e ->
    (e = AttributeError /\ (is_dict_or_list obj = false \/ path = []))
    \/
    (e = IndexError /\
     exists before i after reached,
       path = before ++ KInt i :: after /\
       follow obj before = Some reached /\
       getitem reached (KInt i) = Raised IndexError).
Proof.
  intros obj path e. unfold fetch_nested_key.
  destruct (is_dict_or_list obj); simpl.
  - destruct path as [|k path]; simpl.
    + intros [= <-]. auto.
    + intros Hl. right. now apply fetch_loop_raises.
  - intros [= <-]. auto.
Qed.

(** An index past the end of the list under "a". *)
Lemma fetch_nested_key_raises_only_witness :
  (IndexError = AttributeError /\
   (is_dict_or_list Sample.nested = false \/ [KStr "a"; KInt 3] = []))
  \/
  (IndexError = IndexError /\
   exists before i after reached,
     [KStr "a"; KInt 3] = before ++ KInt i :: after /\
     follow Sample.nested before = Some reached /\
     getitem reached (KInt i) = Raised IndexError).
Proof.
  apply (fetch_nested_key_raises_only Sample.nested [KStr "a"; KInt 3]).
  reflexivity.
Defined.

(* ===================================================================== *)
(** * Further properties: the availability resolver *)
(* ===================================================================== *)

Section ResolverMore.
Variable http : MapTransport.
Variable rec_area_id : Z.

Let resolve' (limit : nat) := _find_matching_resources limit http rec_area_id.

Lemma resolve_more_frames limit f :
  resolve' limit f <> Raised RecursionError ->
  forall extra, resolve' (limit + extra) f = resolve' limit f.
Proof.
  intros Hr. induction extra as [|extra IH].
  - now rewrite Nat.add_0_r.
  - rewrite Nat.add_succ_r. unfold resolve' in *.
    rewrite resolve_more; [exact IH | now rewrite IH].
Qed.

Lemma keys_update_extends (d other : Availabilities) :
  exists extra, keys (dict_update d other) = keys d ++ extra.
Proof.
  unfold dict_update. revert d.
  induction other as [|[k v] other IH]; simpl; intros d.
  - exists []. now rewrite app_nil_r.
  - destruct (IH (dict_set d k v)) as [extra Hx]. rewrite Hx, keys_set.
    destruct (key_in k d).
    + now exists extra.
    + exists (k :: extra). now rewrite <- app_assoc.
Qed.

Lemma visit_maps_extends (descend : SearchFilter -> _) :
  forall ms acc f R f',
    visit_maps descend ms acc f = Returned (R, f') ->
    exists extra, keys R = keys acc ++ extra.
Proof.
  induction ms as [|m ms IH]; simpl; intros acc f R f' Hv.
  - inversion Hv; subst. exists []. now rewrite app_nil_r.
  - destruct (descend (set_mapId f m)) as [[child g]|e]; simpl in Hv;
      [|discriminate].
    destruct (IH _ _ _ _ Hv) as [extra Hx].
    destruct (keys_update_extends acc child) as [extra' Hx'].
    exists (extra' ++ extra). now rewrite Hx, Hx', <- app_assoc.
Qed.

(** Which resource ids the merge knows, one child map at a time. *)
Lemma merged_lookup_known limit f r :
  forall ms direct,
    merged_lookup limit http rec_area_id f r ms direct <> None <->
    direct <> None \/
    exists m child f',
      In m ms /\
      resolve' limit (set_mapId f m) = Returned (child, f') /\
      dict_get child r <> None.
Proof.
  unfold merged_lookup, resolve'.
  induction ms as [|m ms IH]; intros direct; simpl.
  - split; [auto | intros [H|(m & c & g & [] & _)]; exact H].
  - rewrite IH. clear IH.
    destruct (_find_matching_resources limit http rec_area_id (set_mapId f m))
      as [[child g]|e] eqn:E.
    + destruct (dict_get child r) as [v|] eqn:Hc.
      * split; [|intros _; left; discriminate].
        intros _. right. exists m, child, g. repeat split; auto.
        rewrite Hc. discriminate.
      * split.
        -- intros [H|(m' & c & g' & Hin & Hres & Hk)]; [now left|].
           right. exists m', c, g'. auto.
        -- intros [H|(m' & c & g' & [<-|Hin] & Hres & Hk)]; [now left| |].
           ++ rewrite E in Hres. inversion Hres; subst. now rewrite Hc in Hk.
           ++ right. exists m', c, g'. auto.
    + split.
      * intros [H|(m' & c & g' & Hin & Hres & Hk)]; [now left|].
        right. exists m', c, g'. auto.
      * intros [H|(m' & c & g' & [<-|Hin] & Hres & Hk)]; [now left| |].
        -- rewrite E in Hres. discriminate.
        -- right. exists m', c, g'. auto.
Qed.

(** A failed request is the only source of [ConnectionError]. *)
Lemma visit_maps_connection (descend : SearchFilter -> _) :
  (forall f, descend f = Raised ConnectionError ->
             exists g, status_code (http rec_area_id g) <> 200) ->
  forall ms acc f,
    visit_maps descend ms acc f = Raised ConnectionError ->
    exists g, status_code (http rec_area_id g) <> 200.
Proof.
  intros Hd. induction ms as [|m ms IH]; simpl; intros acc f Hv.
  - discriminate.
  - destruct (descend (set_mapId f m)) as [[child g]|e] eqn:E; simpl in Hv.
    + eauto.
    + inversion Hv; subst. eauto.
Qed.

Lemma resolve_connection limit :
  forall f, resolve' limit f = Raised ConnectionError ->
            exists g, status_code (http rec_area_id g) <> 200.
Proof.
  unfold resolve'. induction limit as [|limit IH]; intros f Hr.
  - discriminate.
  - rewrite resolve_unfold in Hr. unfold _api_request in Hr.
    destruct (status_code (http rec_area_id f) =? 200) eqn:Hs; simpl in Hr.
    + eapply visit_maps_connection; eauto.
    + exists f. now apply Z.eqb_neq.
Qed.

End ResolverMore.

Lemma in_keys_iff (d : Availabilities) r :
  In r (keys d) <-> dict_get d r <> None.
Proof.
  split.
  - intros Hin Hnone. now apply dict_get_None_keys in Hnone.
  - intros Hsome. destruct (dict_get d r) as [v|] eqn:E; [|contradiction].
    apply dict_get_In in E. unfold keys. change r with (fst (r, v)).
    now apply in_map.
Qed.

(** X3.  Once the limit suffices, it does not matter: an outcome other
    than [RecursionError] is the outcome under every larger limit. *)
Theorem find_matching_resources_limit_irrelevant :
  forall (limit extra : nat) (http : MapTransport) (rec_area_id : Z)
         (search_filter : SearchFilter),
    _find_matching_resources limit http rec_area_id search_filter
    <> Raised RecursionError ->
    _find_matching_resources (limit + extra) http rec_area_id search_filter
    = _find_matching_resources limit http rec_area_id search_filter.
Proof.
  intros limit extra http rec_area_id f Hr.
  now apply resolve_more_frames.
Qed.

(** The park is resolved alike with 2 frames and with 1000. *)
Lemma find_matching_resources_limit_irrelevant_witness :
  _find_matching_resources (2 + 998) Sample.park_http 1 Sample.filter_10
  = _find_matching_resources 2 Sample.park_http 1 Sample.filter_10.
Proof.
  apply find_matching_resources_limit_irrelevant. discriminate.
Defined.

(** X4.  The resolver loses no resource and invents none: a resource id is
    a key of the returned mapping exactly when the queried map reports it
    or the resolution of one of its child maps holds it. *)
Theorem find_matching_resources_ids :
  forall (limit : nat) (http : MapTransport) (rec_area_id : Z)
         (search_filter : SearchFilter) (found : Availabilities)
         (left_filter : SearchFilter),
    _find_matching_resources (S limit) http rec_area_id search_filter
    = Returned (found, left_filter) ->
    exists results,
      _api_request loads_map (http rec_area_id search_filter) = Returned results /\
      forall r,
        In r (keys found) <->
        In r (keys (resourceAvailabilities results)) \/
        exists m child child_filter,
          In m (keys (mapLinkAvailabilities results)) /\
          _find_matching_resources limit http rec_area_id
                                   (set_mapId search_filter m)
          = Returned (child, child_filter) /\
          In r (keys child).
Proof.
  intros limit http rec_area_id f R f' Hr.
  rewrite resolve_unfold in Hr.
  destruct (_api_request loads_map (http rec_area_id f)) as [results|e];
    simpl in Hr; [|discriminate].
  exists results. split; [reflexivity|]. intros r.
  rewrite in_keys_iff.
  rewrite (visit_maps_lookup _ _ _ _ _ _ _ f _ _ (same_query_refl f) Hr).
  rewrite merged_lookup_known, <- in_keys_iff.
  split; (intros [H|(m & child & g & Hin & Hres & Hk)]; [now left|]);
    right; exists m, child, g; repeat split; auto; now apply in_keys_iff.
Qed.

Lemma find_matching_resources_ids_witness :
  exists results,
    _api_request loads_map (Sample.park_http 1 Sample.filter_10)
    = Returned results /\
    forall r,
      In r (keys [(1, [Sample.free; Sample.free]);
                  (2, [Sample.free; Sample.free]);
                  (3, [Sample.free; Sample.free])]) <->
      In r (keys (resourceAvailabilities results)) \/
      exists m child child_filter,
        In m (keys (mapLinkAvailabilities results)) /\
        _find_matching_resources 1 Sample.park_http 1
                                 (set_mapId Sample.filter_10 m)
        = Returned (child, child_filter) /\
        In r (keys child).
Proof.
  apply (find_matching_resources_ids
           1 Sample.park_http 1 Sample.filter_10 _
           (set_mapId Sample.filter_10 11)).
  reflexivity.
Defined.

(** X5.  The resources that the queried map reports itself come first in
    the returned mapping, in the order of the answer; what the child maps
    add follows. *)
Theorem find_matching_resources_direct_first :
  forall (limit : nat) (http : MapTransport) (rec_area_id : Z)
         (search_filter : SearchFilter) (found : Availabilities)
         (left_filter : SearchFilter),
    _find_matching_resources (S limit) http rec_area_id search_filter
    = Returned (found, left_filter) ->
    exists results added,
      _api_request loads_map (http rec_area_id search_filter) = Returned results /\
      keys found = keys (resourceAvailabilities results) ++ added.
Proof.
  intros limit http rec_area_id f R f' Hr.
  rewrite resolve_unfold in Hr.
  destruct (_api_request loads_map (http rec_area_id f)) as [results|e];
    simpl in Hr; [|discriminate].
  destruct (visit_maps_extends _ _ _ _ _ _ Hr) as [added Hx].
  now exists results, added.
Qed.

Lemma find_matching_resources_direct_first_witness :
  exists results added,
    _api_request loads_map (Sample.park_http 1 Sample.filter_10)
    = Returned results /\
    keys [(1, [Sample.free; Sample.free]); (2, [Sample.free; Sample.free]);
          (3, [Sample.free; Sample.free])]
    = keys (resourceAvailabilities results) ++ added.
Proof.
  apply (find_matching_resources_direct_first
           1 Sample.park_http 1 Sample.filter_10 _
           (set_mapId Sample.filter_10 11)).
  reflexivity.
Defined.

(** X6.  On answers of the expected shape, which are the answers a
    [MapBody] holds: when every request is answered with status 200 and the
    links between maps strictly decrease a rank, the resolver returns a
    mapping within [rank + 1] frames. *)
Theorem find_matching_resources_returns :
  forall (http : MapTransport) (rec_area_id : Z) (search_filter : SearchFilter)
         (rank : Z -> nat) (m : Z) (limit : nat),
    (forall query, status_code (http rec_area_id query) = 200) ->
    (forall a b, links http rec_area_id search_filter a b ->
                 (rank b < rank a)%nat) ->
    (rank m < limit)%nat ->
    exists found left_filter,
      _find_matching_resources limit http rec_area_id
                               (set_mapId search_filter m)
      = Returned (found, left_filter).
Proof.
  intros http rec_area_id f rank m limit Hok Hrank Hlt.
  pose proof (resolve_ranked http rec_area_id rank f Hrank limit m Hlt) as Hn.
  destruct (_find_matching_resources limit http rec_area_id (set_mapId f m))
    as [[found g]|e] eqn:E; [now exists found, g|].
  destruct (resolve_raises _ _ _ _ _ E) as [->| ->]; [|contradiction].
  apply resolve_connection in E. destruct E as [g Hg].
  now rewrite Hok in Hg.
Qed.

Lemma find_matching_resources_returns_witness :
  exists found left_filter,
    _find_matching_resources 2 Sample.park_http 1
                             (set_mapId Sample.filter_10 10)
    = Returned (found, left_filter).
Proof.
  apply (find_matching_resources_returns
           Sample.park_http 1 Sample.filter_10 Sample.park_rank 10 2%nat).
  - intros query. unfold Sample.park_http.
    destruct (mapId query =? 10); [reflexivity|].
    destruct (mapId query =? 11); reflexivity.
  - exact park_links_decrease.
  - unfold Sample.park_rank. simpl. lia.
Defined.

(** X7.  The resolver writes one key of the shared [search_filter]: when
    it returns, every key but [mapId] holds what it held at the call. *)
Theorem find_matching_resources_writes_mapId_only :
  forall (limit : nat) (http : MapTransport) (rec_area_id : Z)
         (search_filter left_filter : SearchFilter) (found : Availabilities),
    _find_matching_resources limit http rec_area_id search_filter
    = Returned (found, left_filter) ->
    resourceLocationId left_filter = resourceLocationId search_filter /\
    bookingCategoryId left_filter = bookingCategoryId search_filter /\
    startDate left_filter = startDate search_filter /\
    endDate left_filter = endDate search_filter /\
    isReserving left_filter = isReserving search_filter /\
    getDailyAvailability left_filter = getDailyAvailability search_filter /\
    partySize left_filter = partySize search_filter /\
    equipmentCategoryId left_filter = equipmentCategoryId search_filter /\
    subEquipmentCategoryId left_filter = subEquipmentCategoryId search_filter /\
    filterData left_filter = filterData search_filter.
Proof.
  intros limit http rec_area_id f f' R Hr.
  destruct (resolve_invariant _ _ _ _ _ _ Hr) as [_ Hq].
  specialize (Hq 0). unfold set_mapId in Hq. inversion Hq.
  repeat split; assumption.
Qed.

Lemma find_matching_resources_writes_mapId_only_witness :
  resourceLocationId (set_mapId Sample.filter_10 11)
  = resourceLocationId Sample.filter_10 /\
  bookingCategoryId (set_mapId Sample.filter_10 11)
  = bookingCategoryId Sample.filter_10 /\
  startDate (set_mapId Sample.filter_10 11) = startDate Sample.filter_10 /\
  endDate (set_mapId Sample.filter_10 11) = endDate Sample.filter_10 /\
  isReserving (set_mapId Sample.filter_10 11) = isReserving Sample.filter_10 /\
  getDailyAvailability (set_mapId Sample.filter_10 11)
  = getDailyAvailability Sample.filter_10 /\
  partySize (set_mapId Sample.filter_10 11) = partySize Sample.filter_10 /\
  equipmentCategoryId (set_mapId Sample.filter_10 11)
  = equipmentCategoryId Sample.filter_10 /\
  subEquipmentCategoryId (set_mapId Sample.filter_10 11)
  = subEquipmentCategoryId Sample.filter_10 /\
  filterData (set_mapId Sample.filter_10 11) = filterData Sample.filter_10.
Proof.
  apply (find_matching_resources_writes_mapId_only
           2 Sample.park_http 1 Sample.filter_10
           (set_mapId Sample.filter_10 11)
           [(1, [Sample.free; Sample.free]); (2, [Sample.free; Sample.free]);
            (3, [Sample.free; Sample.free])]).
  reflexivity.
Defined.

(* ===================================================================== *)
(** * Further properties: list_site_availability *)
(* ===================================================================== *)

Lemma NoDup_keys_filter {V : Type} (keep : Z * V -> bool) (d : dict Z V) :
  NoDup (keys d) -> NoDup (keys (filter keep d)).
Proof.
  unfold keys. induction d as [|[k v] d IH]; simpl; intros Hd; [constructor|].
  inversion Hd as [|? ? Hnotin Hd']; subst.
  destruct (keep (k, v)); simpl; auto.
  constructor; auto.
  intros Hin. apply Hnotin. apply in_map_iff in Hin.
  destruct Hin as (item & <- & Hitem). apply filter_In in Hitem.
  apply in_map. tauto.
Qed.

Lemma available_loop_empty_list :
  forall items acc r,
    In (r, []) items -> available_loop items acc = Raised IndexError.
Proof.
  induction items as [|[r' details] items IH]; intros acc r Hin;
    [contradiction|].
  cbn [available_loop]. rewrite list_index_0.
  destruct details as [|first rest]; [reflexivity|]. simpl.
  destruct Hin as [Heq|Hin]; [discriminate|].
  destruct (availability first =? 0); eauto.
Qed.

Lemma available_loop_raises :
  forall items acc e,
    available_loop items acc = Raised e -> e = IndexError.
Proof.
  induction items as [|[r details] items IH]; intros acc e Hl;
    [discriminate|].
  cbn [available_loop] in Hl. rewrite list_index_0 in Hl.
  destruct details as [|first rest]; simpl in Hl; [congruence|].
  destruct (availability first =? 0); eauto.
Qed.

(** X8.  The sites reported by [list_site_availability] are the keys of
    the resolver's mapping whose first entry says available, in the order
    of the mapping; no site is reported twice. *)
Theorem list_site_availability_order :
  forall (limit : nat) (http : MapTransport) (campground : CampgroundFacility.t)
         (start_date end_date : date) (equipment_category : json)
         (resources : Availabilities) (left_filter : SearchFilter)
         (sites : list Z),
    _find_matching_resources limit http
      (CampgroundFacility.recreation_area_id campground)
      (initial_filter campground start_date end_date equipment_category)
    = Returned (resources, left_filter) ->
    list_site_availability limit http campground start_date end_date
                           equipment_category
    = Returned sites ->
    sites = keys (filter (fun item => first_entry_available (snd item))
                         resources)
    /\ NoDup sites.
Proof.
  intros limit http campground start_date end_date equipment_category
         resources left_filter sites Hres Hsites.
  unfold list_site_availability in Hsites. rewrite Hres in Hsites.
  simpl in Hsites. apply available_loop_spec in Hsites. simpl in Hsites.
  subst sites. split; [reflexivity|].
  apply NoDup_keys_filter.
  now destruct (resolve_invariant _ _ _ _ _ _ Hres).
Qed.

Lemma list_site_availability_order_witness :
  [1] = keys (filter (fun item => first_entry_available (snd item))
                     [(1, [Sample.free; Sample.taken]);
                      (2, [Sample.taken; Sample.free])])
  /\ NoDup [1].
Proof.
  apply (list_site_availability_order
           3 Sample.half_free_http Sample.campground_10
           Sample.july_4 Sample.july_6 (JInt 7)
           [(1, [Sample.free; Sample.taken]); (2, [Sample.taken; Sample.free])]
           (initial_filter Sample.campground_10 Sample.july_4 Sample.july_6
                           (JInt 7))
           [1]); reflexivity.
Defined.

(** X9.  A resource whose availability list is empty makes the whole call
    fail: when the resolver's mapping holds such a resource,
    [list_site_availability] raises [IndexError] and reports no site. *)
Theorem list_site_availability_empty_list :
  forall (limit : nat) (http : MapTransport) (campground : CampgroundFacility.t)
         (start_date end_date : date) (equipment_category : json)
         (resources : Availabilities) (left_filter : SearchFilter) (r : Z),
    _find_matching_resources limit http
      (CampgroundFacility.recreation_area_id campground)
      (initial_filter campground start_date end_date equipment_category)
    = Returned (resources, left_filter) ->
    dict_get resources r = Some [] ->
    list_site_availability limit http campground start_date end_date
                           equipment_category
    = Raised IndexError.
Proof.
  intros limit http campground start_date end_date equipment_category
         resources left_filter r Hres Hget.
  unfold list_site_availability. rewrite Hres. simpl.
  apply available_loop_empty_list with (r := r). now apply dict_get_In.
Qed.

(** X10.  On answers of the expected shape, which are the answers a
    [MapBody] holds with entries that carry their integer [availability]:
    [list_site_availability] raises [ConnectionError], for a request
    answered with a status other than 200, [RecursionError], for an
    exhausted stack, or [IndexError], for an empty availability list, and
    nothing else. *)
Theorem list_site_availability_raises_only :
  forall (limit : nat) (http : MapTransport) (campground : CampgroundFacility.t)
         (start_date end_date : date) (equipment_category : json) (e : exn),
    list_site_availability limit http campground start_date end_date
                           equipment_category
    = Raised e ->
    e = ConnectionError \/ e = RecursionError \/ e = IndexError.
Proof.
  intros limit http campground start_date end_date equipment_category e Hl.
  unfold list_site_availability in Hl.
  destruct (_find_matching_resources limit http
              (CampgroundFacility.recreation_area_id campground)
              (initial_filter campground start_date end_date
                              equipment_category))
    as [[resources g]|x] eqn:E; simpl in Hl.
  - right. right. eapply available_loop_raises; eauto.
  - inversion Hl; subst.
    destruct (resolve_raises _ _ _ _ _ E); auto.
Qed.

Lemma list_site_availability_empty_list_witness :
  list_site_availability 3 Sample.blank_http Sample.campground_10
                         Sample.july_4 Sample.july_6 (JInt 7)
  = Raised IndexError.
Proof.
  apply (list_site_availability_empty_list
           3 Sample.blank_http Sample.campground_10
           Sample.july_4 Sample.july_6 (JInt 7)
           [(1, []); (2, [Sample.free])]
           (initial_filter Sample.campground_10 Sample.july_4 Sample.july_6
                           (JInt 7))
           1); reflexivity.
Defined.

Lemma list_site_availability_raises_only_witness :
  ConnectionError = ConnectionError \/ ConnectionError = RecursionError
  \/ ConnectionError = IndexError.
Proof.
  apply (list_site_availability_raises_only
           3 Sample.down_http Sample.campground_10
           Sample.july_4 Sample.july_6 (JInt 7) ConnectionError).
  reflexivity.
Defined.

(* ===================================================================== *)
(** * Further properties: the equipment listing and its matcher *)
(* ===================================================================== *)

Lemma In_dict_set {V : Type} (d : dict string V) k v n c :
  In (n, c) (dict_set d k v) -> In (n, c) d \/ (n, c) = (k, v).
Proof.
  induction d as [|[k0 v0] d IH]; simpl.
  - intros [E|[]]. now right.
  - destruct (String.eqb k0 k) eqn:Hk.
    + apply String.eqb_eq in Hk. subst k0.
      intros [E|Hin]; [right; now symmetry | left; now right].
    + intros [E|Hin]; [left; now left|].
      destruct (IH Hin); [left; now right | now right].
Qed.

Lemma categories_loop_invariant :
  forall sub_categories_json acc listing,
    NoDup (keys acc) -> well_listed acc ->
    categories_loop sub_categories_json acc = Returned listing ->
    NoDup (keys listing) /\ well_listed listing.
Proof.
  induction sub_categories_json as [|sub rest IH]; intros acc listing Hnd Hw Hl.
  - inversion Hl; subst. auto.
  - cbn [categories_loop] in Hl. do 4 bind_inv Hl.
    apply (IH _ _ (NoDup_keys_set acc a0 _ Hnd)) in Hl; [exact Hl|].
    intros name category Hin. apply In_dict_set in Hin.
    destruct Hin as [Hin|E]; [now apply Hw|].
    inversion E; subst. simpl. split; [|assumption].
    destruct a as [| b | z | s | l | d]; try discriminate.
    inversion Ha0. apply lower_idempotent.
Qed.

Lemma list_equipment_categories_invariant http rec_area_id listing :
  list_equipment_categories http rec_area_id = Returned listing ->
  NoDup (keys listing) /\ well_listed listing.
Proof.
  unfold list_equipment_categories. intros Hl. do 4 bind_inv Hl.
  apply (categories_loop_invariant _ [] _ (NoDup_nil _)) in Hl; [exact Hl|].
  intros name category [].
Qed.

(** X11.  In the listing that [list_equipment_categories] returns, every
    name is in lower case, no name occurs twice, and the [max_size] of every
    category is the size that the three rules read off its name. *)
Theorem list_equipment_categories_listing :
  forall (http : EquipmentTransport) (rec_area_id : Z)
         (listing : dict string Category),
    list_equipment_categories http rec_area_id = Returned listing ->
    NoDup (keys listing) /\
    forall name category,
      dict_get listing name = Some category ->
      lower name = name /\
      category_max_size name = Returned (max_size category).
Proof.
  intros http rec_area_id listing Hl.
  destruct (list_equipment_categories_invariant _ _ _ Hl) as [Hnd Hw].
  split; [assumption|].
  intros name category Hget. apply Hw. now apply dict_get_In.
Qed.

Lemma list_equipment_categories_listing_witness :
  NoDup (keys Sample.equipment_listing) /\
  forall name category,
    dict_get Sample.equipment_listing name = Some category ->
    lower name = name /\
    category_max_size name = Returned (max_size category).
Proof.
  apply (list_equipment_categories_listing Sample.equipment_http 1).
  reflexivity.
Defined.

(** X12.  A listed category whose name holds none of "tent",
    "rv/trailer up to" and "rv/trailer over" has [max_size] 0, and the
    matcher accepts it for a descriptor of length 0 only. *)
Theorem unsized_category_needs_length_zero :
  forall (http : EquipmentTransport) (rec_area_id : Z)
         (listing : dict string Category) (eq_name : string)
         (category : Category),
    list_equipment_categories http rec_area_id = Returned listing ->
    dict_get listing eq_name = Some category ->
    contains "tent" eq_name = false ->
    contains "rv/trailer up to" eq_name = false ->
    contains "rv/trailer over" eq_name = false ->
    max_size category = 0 /\
    forall name L cid,
      match_category name L eq_name category = Some cid -> L = 0.
Proof.
  intros http rec_area_id listing eq_name category Hl Hget Ht Hu Ho.
  destruct (list_equipment_categories_invariant _ _ _ Hl) as [_ Hw].
  destruct (Hw _ _ (dict_get_In _ _ _ Hget)) as [_ Hsize].
  unfold category_max_size in Hsize. rewrite Ht, Hu, Ho in Hsize.
  simpl in Hsize. inversion Hsize as [Hzero].
  split; [reflexivity|].
  intros name L cid Hm. apply match_category_inv in Hm.
  destruct Hm as (_ & _ & [H0|Hpos]); [assumption | lia].
Qed.

Lemma get_equipment_category_run http rec_area_id more_areas name L more :
  _get_equipment_category http (rec_area_id :: more_areas) ((name, L) :: more) =
  match list_equipment_categories http rec_area_id with
  | Raised e => ([], Raised e)
  | Returned listing =>
      match equipment_loop name L listing with
      | Some category_id => ([], Returned category_id)
      | None => (no_category_log, Raised (SystemExit 1))
      end
  end.
Proof.
  unfold _get_equipment_category. rewrite !list_index_0. simpl.
  destruct (list_equipment_categories http rec_area_id) as [listing|e];
    simpl; [|reflexivity].
  now destruct (equipment_loop name L listing).
Qed.

Lemma equipment_loop_first name L :
  forall items cid,
    equipment_loop name L items = Some cid ->
    exists before eq_name category after,
      items = before ++ (eq_name, category) :: after /\
      match_category name L eq_name category = Some cid /\
      Forall (fun item => match_category name L (fst item) (snd item) = None)
             before.
Proof.
  induction items as [|[eq_name category] items IH]; simpl; intros cid Hl;
    [discriminate|].
  destruct (match_category name L eq_name category) as [c|] eqn:Hm.
  - inversion Hl; subst. exists [], eq_name, category, items. auto.
  - destruct (IH _ Hl) as (before & n & c & after & -> & Hc & Hb).
    exists ((eq_name, category) :: before), n, c, after.
    repeat split; auto.
Qed.

Lemma equipment_loop_monotone name L L' :
  0 <= L' <= L ->
  forall items cid,
    equipment_loop name L items = Some cid ->
    exists cid', equipment_loop name L' items = Some cid'.
Proof.
  intros Hle. induction items as [|[eq_name category] items IH]; simpl;
    intros cid Hl; [discriminate|].
  destruct (match_category name L' eq_name category) as [c'|] eqn:Hm';
    [eauto|].
  destruct (match_category name L eq_name category) as [c|] eqn:Hm; [|eauto].
  exfalso. apply match_category_inv in Hm. destruct Hm as (Hf & _ & Hlen).
  rewrite match_category_found in Hm' by assumption.
  destruct (L' =? 0) eqn:H0; [discriminate|]. apply Z.eqb_neq in H0.
  simpl in Hm'.
  replace ((L' >? 0) && (L' <=? max_size category)) with true in Hm';
    [discriminate|].
  symmetry. apply andb_true_iff. split; [apply Z.gtb_lt | apply Z.leb_le]; lia.
Qed.

Lemma equipment_loop_never name L :
  forall items,
    Forall (fun item => lower (fst item) = fst item) items ->
    L < 0 \/ name = ""%string \/ has_upper name = true ->
    equipment_loop name L items = None.
Proof.
  intros items Hlow Hbad.
  induction items as [|[eq_name category] items IH]; [reflexivity|].
  inversion Hlow as [|? ? Hn Hrest]; subst. simpl in Hn.
  cbn [equipment_loop]. rewrite (IH Hrest).
  destruct (match_category name L eq_name category) as [c|] eqn:Hm;
    [|reflexivity].
  exfalso. apply match_category_inv in Hm. destruct Hm as (Hf & _ & Hlen).
  destruct Hbad as [Hneg|[->|Hup]].
  - lia.
  - rewrite find_empty in Hf. lia.
  - unfold find in Hf. rewrite <- Hn in Hf.
    rewrite (find_upper_in_lower _ Hup _ 0 (has_upper_lower eq_name)) in Hf.
    lia.
Qed.

(** X13.  The category id that [_get_equipment_category] returns is the id
    of the first category of the listing, in listing order, that accepts
    the descriptor: every category before it rejects it. *)
Theorem get_equipment_category_first :
  forall (http : EquipmentTransport) (rec_area_id : Z) (more_areas : list Z)
         (name : string) (L : Z) (more : list (string * Z))
         (listing : dict string Category) (cid : json),
    list_equipment_categories http rec_area_id = Returned listing ->
    snd (_get_equipment_category http (rec_area_id :: more_areas)
                                 ((name, L) :: more))
    = Returned cid ->
    exists before eq_name category after,
      listing = before ++ (eq_name, category) :: after /\
      id category = cid /\
      match_category name L eq_name category = Some cid /\
      Forall (fun item => match_category name L (fst item) (snd item) = None)
             before.
Proof.
  intros http rec_area_id more_areas name L more listing cid Hl Hr.
  rewrite get_equipment_category_run, Hl in Hr.
  destruct (equipment_loop name L listing) as [c|] eqn:Hloop;
    [|discriminate].
  simpl in Hr. inversion Hr; subst c.
  destruct (equipment_loop_first _ _ _ _ Hloop)
    as (before & eq_name & category & after & -> & Hm & Hb).
  exists before, eq_name, category, after. repeat split; auto.
  apply match_category_inv in Hm. now destruct Hm as (_ & -> & _).
Qed.

Lemma get_equipment_category_first_witness :
  exists before eq_name category after,
    Sample.equipment_listing = before ++ (eq_name, category) :: after /\
    id category = JInt 7 /\
    match_category "trailer" 25 eq_name category = Some (JInt 7) /\
    Forall (fun item => match_category "trailer" 25 (fst item) (snd item) = None)
           before.
Proof.
  apply (get_equipment_category_first
           Sample.equipment_http 1 [] "trailer" 25 []); reflexivity.
Defined.

(** X14.  The matcher as a whole is monotone in the length: when
    [_get_equipment_category] returns a category for [(name, L)], it
    returns one, without logging, for every [(name, L')] with
    [0 <= L' <= L]. *)
Theorem get_equipment_category_monotone :
  forall (http : EquipmentTransport) (rec_area_id : Z) (more_areas : list Z)
         (name : string) (L L' : Z) (more more' : list (string * Z))
         (cid : json),
    snd (_get_equipment_category http (rec_area_id :: more_areas)
                                 ((name, L) :: more))
    = Returned cid ->
    0 <= L' <= L ->
    exists cid',
      _get_equipment_category http (rec_area_id :: more_areas)
                              ((name, L') :: more')
      = ([], Returned cid').
Proof.
  intros http rec_area_id more_areas name L L' more more' cid Hr Hle.
  rewrite get_equipment_category_run in *.
  destruct (list_equipment_categories http rec_area_id) as [listing|e];
    [|discriminate].
  destruct (equipment_loop name L listing) as [c|] eqn:Hloop; [|discriminate].
  destruct (equipment_loop_monotone _ _ _ Hle _ _ Hloop) as [cid' ->].
  now exists cid'.
Qed.

Lemma get_equipment_category_monotone_witness :
  exists cid',
    _get_equipment_category Sample.equipment_http [1] [("trailer"%string, 10)]
    = ([], Returned cid').
Proof.
  apply (get_equipment_category_monotone
           Sample.equipment_http 1 [] "trailer" 25 10 [] [] (JInt 7)).
  - reflexivity.
  - lia.
Defined.

(** X15.  Three descriptors never get a category: one with a negative
    length, one with an empty name, one whose name has an upper-case
    letter (the listed names are in lower case and the descriptor's is
    compared as it is).  With the listing at hand the method logs the
    error and leaves through [exit(1)]. *)
Theorem get_equipment_category_never_matches :
  forall (http : EquipmentTransport) (rec_area_id : Z) (more_areas : list Z)
         (name : string) (L : Z) (more : list (string * Z))
         (listing : dict string Category),
    list_equipment_categories http rec_area_id = Returned listing ->
    L < 0 \/ name = ""%string \/ has_upper name = true ->
    _get_equipment_category http (rec_area_id :: more_areas)
                            ((name, L) :: more)
    = (no_category_log, Raised (SystemExit 1)).
Proof.
  intros http rec_area_id more_areas name L more listing Hl Hbad.
  rewrite get_equipment_category_run, Hl.
  rewrite equipment_loop_never; [reflexivity | | assumption].
  destruct (list_equipment_categories_invariant _ _ _ Hl) as [_ Hw].
  apply Forall_forall. intros [n c] Hin. simpl. now apply (Hw n c).
Qed.

Lemma get_equipment_category_never_matches_witness :
  _get_equipment_category Sample.equipment_http [1] [("Trailer"%string, 25)]
  = (no_category_log, Raised (SystemExit 1)).
Proof.
  apply (get_equipment_category_never_matches
           Sample.equipment_http 1 [] "Trailer" 25 []
           Sample.equipment_listing).
  - reflexivity.
  - right. right. reflexivity.
Defined.

Lemma unsized_category_needs_length_zero_witness :
  max_size Sample.van = 0 /\
  forall name L cid,
    match_category name L "van/camper" Sample.van = Some cid -> L = 0.
Proof.
  apply (unsized_category_needs_length_zero
           Sample.van_http 1 [("van/camper"%string, Sample.van)]);
    reflexivity.
Defined.

(* ===================================================================== *)
(** * Further properties: the search and its campgrounds *)
(* ===================================================================== *)

Lemma site_record_facility self get_site_details campground site record :
  site_record self get_site_details campground site = Returned record ->
  AvailableCampsite.facility_id record
  = CampgroundFacility.facility_id campground.
Proof.
  intros Hr. unfold site_record in Hr. do 12 bind_inv Hr.
  now inversion Hr.
Qed.

Lemma sites_loop_records self get_site_details campground :
  forall sites acc out,
    sites_loop self get_site_details campground sites acc = Returned out ->
    exists records,
      out = acc ++ records /\
      length records = length sites /\
      Forall (fun record =>
                AvailableCampsite.facility_id record
                = CampgroundFacility.facility_id campground)
             records.
Proof.
  induction sites as [|site rest IH]; simpl; intros acc out Hl.
  - inversion Hl; subst. exists []. now rewrite app_nil_r.
  - bind_inv Hl. destruct (IH _ _ Hl) as (records & -> & Hlen & Hall).
    exists (a :: records). rewrite <- app_assoc. simpl. repeat split; auto.
    constructor; [|assumption]. eapply site_record_facility; eauto.
Qed.

(** X16.  [get_all_campsites] returns the records of the last campground
    of [self.campgrounds] and of no other: one record for every site that
    [list_site_availability] reports for that campground over the first
    search window, each carrying that campground's facility id. *)
Theorem get_all_campsites_last_campground :
  forall (limit : nat) (http : MapTransport) (get_site_details : SiteDetails)
         (self : SearchGoingToCamp.t) (before : list CampgroundFacility.t)
         (last : CampgroundFacility.t) (out : list AvailableCampsite.t),
    campgrounds self = before ++ [last] ->
    get_all_campsites limit http get_site_details self = Returned out ->
    exists window sites,
      list_index (search_window self) 0 = Returned window /\
      list_site_availability limit http last
        (SearchWindow.start_date window) (SearchWindow.end_date window)
        (equipment self)
      = Returned sites /\
      length out = length sites /\
      Forall (fun record =>
                AvailableCampsite.facility_id record
                = CampgroundFacility.facility_id last)
             out.
Proof.
  intros limit http get_site_details self before last out Hc Hall.
  unfold get_all_campsites in Hall. rewrite Hc in Hall.
  apply campgrounds_loop_last in Hall.
  cbn [campgrounds_loop] in Hall. do 3 bind_inv Hall.
  inversion Hall; subst out.
  destruct (sites_loop_records _ _ _ _ _ _ Ha1) as (records & -> & Hlen & Hr).
  exists a, a0. auto.
Qed.

Lemma get_all_campsites_last_campground_witness :
  exists window sites,
    list_index [Sample.weekend] 0 = Returned window /\
    list_site_availability 5 Sample.park_http Sample.campground_10
      (SearchWindow.start_date window) (SearchWindow.end_date window) (JInt 7)
    = Returned sites /\
    length [Sample.record_10 Sample.weekend; Sample.record_10 Sample.weekend;
            Sample.record_10 Sample.weekend]
    = length sites /\
    Forall (fun record =>
              AvailableCampsite.facility_id record
              = CampgroundFacility.facility_id Sample.campground_10)
           [Sample.record_10 Sample.weekend; Sample.record_10 Sample.weekend;
            Sample.record_10 Sample.weekend].
Proof.
  apply (get_all_campsites_last_campground
           5 Sample.park_http Sample.site_details
           (Sample.search [Sample.campground_20; Sample.campground_10]
                          Sample.weekend false)
           [Sample.campground_20] Sample.campground_10);
    reflexivity.
Defined.

Lemma areas_loop_upper text :
  has_upper text = true ->
  forall items acc, areas_loop text items acc = acc.
Proof.
  intros Hu. induction items as [|[host area] items IH]; intros acc;
    [reflexivity|].
  cbn [areas_loop]. rewrite !contains_upper_in_lower by assumption.
  simpl. apply IH.
Qed.

Lemma areas_loop_incl text :
  forall items acc area,
    In area (areas_loop text items acc) ->
    In area acc \/ In area (map snd items).
Proof.
  induction items as [|[host a] items IH]; simpl; intros acc area Hin;
    [now left|].
  destruct (contains text (lower (RecreationArea.recreation_area a))
            || contains text
                        (lower (RecreationArea.recreation_area_location a))).
  - apply IH in Hin. destruct Hin as [Hin|Hin]; [|auto].
    apply in_app_or in Hin. destruct Hin as [Hin|[<-|[]]]; auto.
  - apply IH in Hin. destruct Hin; auto.
Qed.

(** X17.  [find_recreation_areas] returns areas of the table only, and it
    compares the search string, as given, with the lower-cased name and
    location: a search string with an upper-case letter finds no area. *)
Theorem find_recreation_areas_case :
  forall (search_string : option string),
    (forall area, In area (find_recreation_areas search_string) ->
                  In area (map snd RECREATION_AREAS))
    /\
    (forall text, search_string = Some text -> has_upper text = true ->
                  find_recreation_areas search_string = []).
Proof.
  intros search_string. split.
  - intros area. unfold find_recreation_areas.
    destruct search_string as [text|]; [|auto].
    destruct (String.eqb text ""); [auto|].
    intros Hin. apply areas_loop_incl in Hin. destruct Hin as [[]|Hin]; auto.
  - intros text -> Hu. unfold find_recreation_areas.
    destruct text as [|c text]; [discriminate|].
    cbn [String.eqb]. now apply areas_loop_upper.
Qed.

(** "Washington" finds nothing, although "washington" would. *)
Lemma find_recreation_areas_case_witness :
  find_recreation_areas (Some "Washington"%string) = [].
Proof.
  destruct (find_recreation_areas_case (Some "Washington"%string))
    as [_ Hcase].
  apply (Hcase "Washington"%string); reflexivity.
Defined.

(** X18.  [_hostname_for] and [rec_area_lookup] know the same recreation
    areas: an id has a host name exactly when it has an area, and the area
    stored under that host name is the one looked up, with that id. *)
Theorem hostname_and_area_agree :
  forall (rec_area_id : Z),
    (_hostname_for rec_area_id = None <-> rec_area_lookup rec_area_id = None)
    /\
    (forall hostname,
        _hostname_for rec_area_id = Some hostname ->
        exists area,
          dict_get RECREATION_AREAS hostname = Some area /\
          rec_area_lookup rec_area_id = Some area /\
          RecreationArea.recreation_area_id area = rec_area_id).
Proof.
  intros rec_area_id.
  cbv [_hostname_for rec_area_lookup RECREATION_AREAS List.find map snd fst
       RecreationArea.recreation_area_id].
  destruct (1 =? rec_area_id) eqn:H1; [|destruct (2 =? rec_area_id) eqn:H2];
    cbn [option_map fst].
  - apply Z.eqb_eq in H1. split; [split; discriminate|].
    intros hostname [= <-]. eexists. repeat split. exact H1.
  - apply Z.eqb_eq in H2. split; [split; discriminate|].
    intros hostname [= <-]. eexists. repeat split. exact H2.
  - split; [tauto | discriminate].
Qed.

(** Area 2 is Wisconsin, on its host; area 3 has neither. *)
Lemma hostname_and_area_agree_witness :
  (exists area,
      dict_get RECREATION_AREAS "wisconsin.goingtocamp.com"%string = Some area /\
      rec_area_lookup 2 = Some area /\
      RecreationArea.recreation_area_id area = 2)
  /\ rec_area_lookup 3 = None.
Proof.
  split.
  - destruct (hostname_and_area_agree 2) as [_ Hhost].
    apply Hhost. reflexivity.
  - destruct (hostname_and_area_agree 3) as [Hnone _].
    apply Hnone. reflexivity.
Defined.

Lemma campground_id_loop_filter given :
  forall facilities acc,
    campground_id_loop (Some given) facilities acc
    = Returned (acc ++ filter (selects given) facilities).
Proof.
  induction facilities as [|facility rest IH]; intros acc; simpl.
  - now rewrite app_nil_r.
  - unfold selects at 2.
    destruct given as [whole|texts]; simpl;
      match goal with
      | |- (if ?c then _ else _) = _ => destruct c
      end; rewrite IH; try rewrite <- app_assoc; reflexivity.
Qed.

Lemma facilities_loop_concat per_area :
  forall areas acc out,
    facilities_loop per_area areas acc = Returned out ->
    exists lists,
      Forall2 (fun area found => per_area area = Returned found) areas lists /\
      out = acc ++ concat lists.
Proof.
  induction areas as [|area rest IH]; simpl; intros acc out Hl.
  - inversion Hl; subst. exists []. split; [constructor|].
    now rewrite app_nil_r.
  - bind_inv Hl. destruct (IH _ _ Hl) as (lists & Hall & ->).
    exists (a :: lists). split; [now constructor|]. simpl.
    now rewrite app_assoc.
Qed.

Lemma facilities_loop_raises per_area :
  forall areas acc e,
    facilities_loop per_area areas acc = Raised e ->
    exists area, In area areas /\ per_area area = Raised e.
Proof.
  induction areas as [|area rest IH]; simpl; intros acc e Hl; [discriminate|].
  destruct (per_area area) as [found|x] eqn:E; simpl in Hl.
  - destruct (IH _ _ Hl) as (a & Hin & Ha). eauto.
  - inversion Hl; subst. eauto.
Qed.

(** X19.  [find_campgrounds] returns the facilities of the recreation
    areas given, area after area in the order given; it returns only when
    the search of every area returned. *)
Theorem find_campgrounds_concat :
  forall (per_area : PerArea) (rec_area_id : option (list Z))
         (out : list CampgroundFacility.t),
    find_campgrounds per_area rec_area_id = Returned out ->
    exists areas lists,
      rec_area_id = Some areas /\ areas <> [] /\
      Forall2 (fun area found => per_area area = Returned found) areas lists /\
      out = concat lists.
Proof.
  intros per_area rec_area_id out Hf. unfold find_campgrounds in Hf.
  destruct rec_area_id as [[|area rest]|]; try discriminate.
  destruct (facilities_loop_concat _ _ _ _ Hf) as (lists & Hall & ->).
  exists (area :: rest), lists. repeat split; auto. discriminate.
Qed.

Lemma find_campgrounds_concat_witness :
  exists areas lists,
    Some [1; 2] = Some areas /\ areas <> [] /\
    Forall2 (fun area found => Sample.two_campgrounds area = Returned found)
            areas lists /\
    [Sample.campground_10; Sample.campground_20;
     Sample.campground_10; Sample.campground_20] = concat lists.
Proof.
  apply (find_campgrounds_concat Sample.two_campgrounds (Some [1; 2])).
  reflexivity.
Defined.

(** X20.  Without campsite ids, the campgrounds that
    [_get_searchable_campgrounds] returns are the facilities of the listing
    whose id, as text, the [campgrounds] argument asks for, in listing
    order: an element of the list given or, when one text was given, any
    part of that text.  The listing is never returned unfiltered. *)
Theorem get_searchable_campgrounds_selected :
  forall (per_area : PerArea) (by_campsite : ByCampsite)
         (campground_object : CampgroundObject)
         (recreation_area_id campsites : option (list Z))
         (out : list CampgroundFacility.t),
    no_ids campsites = true ->
    snd (_get_searchable_campgrounds per_area by_campsite campground_object
                                     recreation_area_id campsites)
    = Returned out ->
    exists given listing,
      campground_object = Some given /\
      find_campgrounds per_area recreation_area_id = Returned listing /\
      out = filter (selects given) listing.
Proof.
  intros per_area by_campsite campground_object recreation_area_id campsites
         out Hnone Hr.
  unfold _get_searchable_campgrounds in Hr.
  destruct (no_campgrounds campground_object) eqn:Hc; [discriminate|].
  simpl in Hr.
  destruct (no_ids recreation_area_id); [discriminate|].
  rewrite Hnone in Hr. simpl in Hr.
  unfold _get_campgrounds_by_recreation_area_id in Hr. rewrite Hc in Hr.
  simpl in Hr. unfold _get_campgrounds_by_campground_id in Hr.
  bind_inv Hr.
  destruct campground_object as [given|]; [|discriminate].
  rewrite campground_id_loop_filter in Hr. inversion Hr.
  now exists given, a.
Qed.

(** With the one text "1100" given, facility 100 is selected: "100" is a
    part of "1100". *)
Lemma get_searchable_campgrounds_selected_witness :
  exists given listing,
    Some (inl "1100"%string) = Some given /\
    find_campgrounds Sample.two_campgrounds (Some [1]) = Returned listing /\
    [Sample.campground_10] = filter (selects given) listing.
Proof.
  apply (get_searchable_campgrounds_selected
           Sample.two_campgrounds Sample.no_campsite_lookup
           (Some (inl "1100"%string)) (Some [1]) None);
    reflexivity.
Defined.

(** X21.  The guards of [_get_searchable_campgrounds] keep its callees
    within their domain: the method does not run into the unbound local of
    [find_campgrounds] nor into a membership test on [None].  When the two
    searches it relies on raise neither [UnboundLocalError] nor
    [TypeError], it raises neither. *)
Theorem get_searchable_campgrounds_guards :
  forall (per_area : PerArea) (by_campsite : ByCampsite)
         (campground_object : CampgroundObject)
         (recreation_area_id campsites : option (list Z)) (e : exn),
    (forall area x, per_area area = Raised x ->
                    x <> UnboundLocalError /\ x <> TypeError) ->
    (forall ids x, by_campsite ids = Raised x ->
                   x <> UnboundLocalError /\ x <> TypeError) ->
    snd (_get_searchable_campgrounds per_area by_campsite campground_object
                                     recreation_area_id campsites)
    = Raised e ->
    e <> UnboundLocalError /\ e <> TypeError.
Proof.
  intros per_area by_campsite campground_object recreation_area_id campsites e
         Hper Hby Hr.
  unfold _get_searchable_campgrounds in Hr.
  destruct (no_campgrounds campground_object) eqn:Hc; simpl in Hr.
  { inversion Hr. split; discriminate. }
  destruct (no_ids recreation_area_id) eqn:Hids; simpl in Hr.
  { inversion Hr. split; discriminate. }
  destruct (no_ids campsites); simpl in Hr; [|eauto].
  unfold _get_campgrounds_by_recreation_area_id in Hr. rewrite Hc in Hr.
  simpl in Hr. unfold _get_campgrounds_by_campground_id in Hr.
  destruct campground_object as [given|]; [|discriminate].
  destruct recreation_area_id as [[|area rest]|]; try discriminate.
  unfold find_campgrounds in Hr.
  destruct (facilities_loop per_area (area :: rest) []) as [listing|x] eqn:E;
    simpl in Hr.
  - rewrite campground_id_loop_filter in Hr. discriminate.
  - inversion Hr; subst x.
    destruct (facilities_loop_raises _ _ _ _ E) as (a & _ & Ha). eauto.
Qed.

(** With the platform down, the request error is what comes out. *)
Lemma get_searchable_campgrounds_guards_witness :
  ConnectionError <> UnboundLocalError /\ ConnectionError <> TypeError.
Proof.
  apply (get_searchable_campgrounds_guards
           Sample.down_area Sample.no_campsite_lookup
           (Some (inr ["100"%string])) (Some [1]) None ConnectionError).
  - intros area x Hx. inversion Hx. split; discriminate.
  - intros ids x Hx. discriminate Hx.
  - reflexivity.
Defined.
